(** * Mask_evaluator: a shallow embedding of [MaskTrackEvaluator]

    The first part embeds [src/Mask_analysis/Mask_evaluator.py]: file-name
    helpers, alignment of the three directories, mask loading and
    ground-truth normalisation, track loading, the overlap metrics, the
    two evaluation tables, the summary row and the constructor, one module
    for each. The second part, Properties, holds the lemmas about these
    definitions and the theorems about the evaluator; the third part adds
    further properties of the same functions.

    Conventions.
    - Python [str] is [string]; the digit class of the pattern [\d] is
      read on ASCII file names.
    - Python [int] and the integer dtypes of NumPy are [Z]; the values
      that occur (pixel counts of images) are far from any overflow. The
      one conversion into a fixed width, [astype(int)] of the pixel
      coordinates, is written out.
    - The coordinates of the track tables and the numbers of the result
      tables are float64: the primitive floats of the prover (binary64,
      round to nearest, ties to even), with [PrimFloat.div] and
      [PrimFloat.add] for [/] and [+].
    - The two overlap metrics are the ratio of two counts, kept in [Q];
      the cell of a table holds the float64 quotient of the two counts.
    - Code that can raise returns a [result]: [Ok] or [Raise]. *)

From Stdlib Require Import PrimFloat SpecFloat FloatOps FloatAxioms.
From Stdlib Require Import ZArith QArith Qround Qabs Lqa String Ascii List Lia.
From stdpp Require Import gmap strings list sorting pretty.

#[local] Set Warnings "-clear-no-such-hyp".
#[local] Set Warnings "-inexact-float".

Local Open Scope string_scope.
Local Open Scope Z_scope.
Local Open Scope list_scope.

#[local] Arguments String.append !s1 s2 : simpl nomatch.

(** ** Exceptions *)

Inductive exn : Type :=
| ValueError (msg : string)
| OSError (msg : string).

Inductive result (A : Type) : Type :=
| Ok (a : A)
| Raise (e : exn).
Arguments Ok {A} a.
Arguments Raise {A} e.

#[global] Instance result_ret : MRet result := fun A a => Ok a.
#[global] Instance result_bind : MBind result := fun A B k m =>
  match m with
  | Ok a => k a
  | Raise e => Raise e
  end.

(** ** File-name helpers *)

Module Filenames.

Definition is_digit (c : ascii) : bool :=
  let n := nat_of_ascii c in (48 <=? n)%nat && (n <=? 57)%nat.

Definition digit_value (c : ascii) : Z := Z.of_nat (nat_of_ascii c) - 48.

Fixpoint string_forall (p : ascii → bool) (s : string) : bool :=
  match s with
  | EmptyString => true
  | String c s' => p c && string_forall p s'
  end.

Definition all_digits : string → bool := string_forall is_digit.
Definition no_digit : string → bool := string_forall (fun c => negb (is_digit c)).

(** The run of digits being read is closed when a non-digit or the end
    of the string is met. *)
Definition flush (cur : string) : list string :=
  match cur with
  | EmptyString => []
  | _ => [cur]
  end.

(** [re.findall(r'\d+', s)], as the left-to-right scan with the run
    [cur] read so far: all maximal runs of digits, in order. *)
Fixpoint findall_from (cur s : string) : list string :=
  match s with
  | EmptyString => flush cur
  | String c s' =>
      if is_digit c then findall_from (cur +:+ String c EmptyString) s'
      else flush cur ++ findall_from EmptyString s'
  end.

Definition findall_digits (s : string) : list string :=
  findall_from EmptyString s.

(** [int(s)] on a string of decimal digits. *)
Fixpoint int_from (acc : Z) (s : string) : Z :=
  match s with
  | EmptyString => acc
  | String c s' => int_from (10 * acc + digit_value c) s'
  end.

Definition int (s : string) : Z := int_from 0 s.

(** [_extract_number]: [int(nums[-1]) if nums else -1]. *)
Definition _extract_number (filename : string) : Z :=
  match last (findall_digits filename) with
  | Some run => int run
  | None => -1
  end.

(** The prefix before a maximal run is empty or ends with a non-digit. *)
Definition run_boundary (pre : string) : Prop :=
  pre = EmptyString ∨
  ∃ pre' c, pre = pre' +:+ String c EmptyString ∧ is_digit c = false.

End Filenames.

(** ** Console output *)

(** The lines the evaluator prints. *)
Inductive notice : Type :=
| MissingSets (nums : list Z)   (* "Missing sets for numbers: [...]" *)
| Loaded (n : nat)              (* "Loaded n aligned sets." *)
| Saved (excel_filename : string).

(** ** Alignment of the three directories *)

Module Align.

Import Filenames.

(** [sorted(s)] on a set of integers. *)
Definition sorted (s : gset Z) : list Z := merge_sort Z.le (elements s).

(** [{self._extract_number(f): f for f in files}]: a later file with the
    same number replaces an earlier one. *)
Definition number_map (files : list string) : gmap Z string :=
  foldl (fun m f => <[_extract_number f := f]> m) ∅ files.

Definition triplet : Type := Z * string * string * string.

Definition triplet_num (t : triplet) : Z :=
  let '(num, _, _, _) := t in num.

(** [_align_files]: the aligned list and what is printed. *)
Definition _align_files (roi_files gt_files track_files : list string)
  : list triplet * list notice :=
  let roi_map := number_map roi_files in
  let gt_map := number_map gt_files in
  let track_map := number_map track_files in
  let aligned :=
    (fun num => (num, roi_map !!! num, gt_map !!! num, track_map !!! num))
      <$> sorted (dom roi_map ∩ dom gt_map ∩ dom track_map) in
  let all_nums := dom roi_map ∪ dom gt_map ∪ dom track_map in
  let missing : gset Z := all_nums ∖ list_to_set (triplet_num <$> aligned) in
  (aligned,
   if decide (missing = ∅) then [] else [MissingSets (sorted missing)]).

(** The identifiers printed as missing. *)
Definition reported (out : list notice) : list Z :=
  out ≫= (fun n => match n with MissingSets nums => nums | _ => [] end).

(** The identifiers extracted from a collection of file names. *)
Definition ids (files : list string) : gset Z :=
  list_to_set (_extract_number <$> files).

End Align.

(** ** Arrays and mask loading *)

Module Masks.

(** A two-dimensional array is the list of its rows. *)
Definition shape {A} (a : list (list A)) : nat * nat :=
  (length a, match a with [] => 0%nat | r :: _ => length r end).

Definition rectangular {A} (a : list (list A)) : Prop :=
  Forall (fun r => length r = (shape a).2) a.

(** [a[i, j]], [None] outside the array. *)
Definition pixel {A} (a : list (list A)) (i j : nat) : option A :=
  a !! i ≫= (.!! j).

(** What [io.imread] decodes: a grey image (H, W) or one with channels
    (H, W, C). *)
Inductive image : Type :=
| Gray (px : list (list Z))
| Channels (px : list (list (list Z))).

(** The keyword arguments of [skimage.transform.resize] that the
    evaluator sets. *)
Record resize_args : Type := {
  order : nat;
  preserve_range : bool;
  anti_aliasing : bool
}.

Definition canonical : nat := 428.

(** [(a > t).astype(np.uint8)] *)
Definition binarize_Z (a : list (list Z)) : list (list Z) :=
  fmap (M:=list) (fmap (M:=list) (fun v => if (0 <? v)%Z then 1 else 0)) a.

Definition binarize_half (a : list (list Q)) : list (list Z) :=
  fmap (M:=list) (fmap (M:=list)
    (fun v => if Qle_bool v (1 # 2) then 0 else 1)) a.

(** [mask[sh:sh + 428, sw:sw + 428]] *)
Definition window {A} (a : list (list A)) (sh sw : nat) : list (list A) :=
  (fun r => take canonical (drop sw r)) <$> take canonical (drop sh a).

Section IO.
(** The image decoder and the resampling routine are libraries the
    evaluator calls. *)
Variable imread : string → result image.
Variable resize : list (list Z) → nat * nat → resize_args → list (list Q).

Definition _read_mask (path : string) : result (list (list Z)) :=
  img ← imread path;
  let img :=
    match img with
    | Gray px => px
    | Channels px => fmap (M:=list) (fmap (M:=list) (fun ch => hd 0 ch)) px
    end in
  mret (binarize_Z img).

Definition _read_gt (path : string) : result (list (list Z)) :=
  mask ← _read_mask path;
  if decide (shape mask = (canonical, canonical)) then mret mask
  else
    let '(h, w) := shape mask in
    if (canonical <=? h)%nat && (canonical <=? w)%nat then
      let sh := ((h - canonical) / 2)%nat in
      let sw := ((w - canonical) / 2)%nat in
      mret (window mask sh sw)
    else
      let resized :=
        resize mask (canonical, canonical)
          {| order := 0; preserve_range := true; anti_aliasing := false |} in
      mret (binarize_half resized).
End IO.

End Masks.

(** ** NumPy array operations used by the metrics *)

Module Numpy.

Import Masks.

(** Truth value of an array element. *)
Definition nonzero (v : Z) : bool := negb (v =? 0).

(** Broadcasting of one axis: equal lengths, or one of them is 1. *)
Definition broadcast_dim (m n : nat) : option nat :=
  if decide (m = n) then Some m
  else if decide (m = 1%nat) then Some n
  else if decide (n = 1%nat) then Some m
  else None.

Definition broadcast_shapes (s t : nat * nat) : option (nat * nat) :=
  h ← broadcast_dim s.1 t.1; w ← broadcast_dim s.2 t.2; Some (h, w).

(** An axis of length 1 is repeated to the length [n]. *)
Definition stretch {A} (n : nat) (l : list A) : list A :=
  match l with
  | [x] => replicate n x
  | _ => l
  end.

Definition broadcast_to {A} (a : list (list A)) (s : nat * nat)
  : list (list A) :=
  stretch s.1 (stretch s.2 <$> a).

(** A binary ufunc on two arrays: broadcasts, or raises. *)
Definition ufunc2 {A B C} (f : A → B → C)
    (a : list (list A)) (b : list (list B)) : result (list (list C)) :=
  match broadcast_shapes (shape a) (shape b) with
  | Some s => Ok (zip_with (zip_with f) (broadcast_to a s) (broadcast_to b s))
  | None =>
      Raise (ValueError "operands could not be broadcast together")
  end.

Definition logical_and : list (list Z) → list (list Z) → result (list (list bool)) :=
  ufunc2 (fun x y => nonzero x && nonzero y).

Definition logical_or : list (list Z) → list (list Z) → result (list (list bool)) :=
  ufunc2 (fun x y => nonzero x || nonzero y).

(** [a.sum()] *)
Definition sum (a : list (list Z)) : Z :=
  foldr (fun r acc => foldr Z.add 0 r + acc) 0 a.

(** [a.sum()] on an array of booleans counts the true elements. *)
Definition count (a : list (list bool)) : Z :=
  sum (fmap (M:=list) (fmap (M:=list) Z.b2z) a).

(** [np.where(mask == 1)]: index pairs [(y, x)] in row-major order. *)
Definition where_eq1 (mask : list (list Z)) : list (nat * nat) :=
  mjoin (imap (fun y r =>
           omap id (imap (fun x v => if decide (v = 1) then Some (y, x) else None) r))
         mask).

Definition binary (a : list (list Z)) : Prop :=
  Forall (Forall (fun v => v = 0 ∨ v = 1)) a.

End Numpy.

(** ** Masks as sets of pixels *)

Module Pixels.

Import Masks Numpy.

(** The positions [(i, j)] of the elements of an array that satisfy [p],
    as a finite set: for a mask, its foreground. *)
Fixpoint row_set {A} (p : A → bool) (i j0 : nat) (r : list A)
  : gset (nat * nat) :=
  match r with
  | [] => ∅
  | v :: r' => (if p v then {[ (i, j0) ]} else ∅) ∪ row_set p i (S j0) r'
  end.

Fixpoint set_from {A} (p : A → bool) (i0 : nat) (a : list (list A))
  : gset (nat * nat) :=
  match a with
  | [] => ∅
  | r :: a' => row_set p i0 0 r ∪ set_from p (S i0) a'
  end.

Definition pixels {A} (p : A → bool) (a : list (list A)) : gset (nat * nat) :=
  set_from p 0 a.

(** The foreground of a mask. *)
Definition fg (a : list (list Z)) : gset (nat * nat) := pixels nonzero a.

End Pixels.

(** ** Overlap metrics *)

Module Metrics.

Import Masks Numpy Pixels.

Definition jaccard_index (a b : list (list Z)) : result Q :=
  both ← logical_and a b;
  any ← logical_or a b;
  let inter := count both in
  let union := count any in
  mret (if union =? 0 then 1%Q else (inject_Z inter / inject_Z union)%Q).

Definition dice_coefficient (a b : list (list Z)) : result Q :=
  both ← logical_and a b;
  let inter := count both in
  let denom := sum a + sum b in
  mret (if denom =? 0 then 1%Q else (inject_Z (2 * inter) / inject_Z denom)%Q).

End Metrics.

(** ** float64 *)

Module Float64.

(** The rational number that a finite float64 is; [None] for NaN and the
    two infinities. *)
Definition value (x : float) : option Q :=
  match Prim2SF x with
  | S754_zero _ => Some 0%Q
  | S754_finite s m e =>
      Some (inject_Z (if s then Z.neg m else Z.pos m) * 2 ^ e)%Q
  | _ => None
  end.

(** An integer as float64, the nearest one (ties to even): the integer
    itself up to 2^53. *)
Definition of_Z (z : Z) : float :=
  SF2Prim (binary_normalize prec emax z 0 false).

(** The float64 quotient of two integers: both as float64, then one
    division. *)
Definition of_Q (q : Q) : float :=
  PrimFloat.div (of_Z (Qnum q)) (of_Z (Z.pos (Qden q))).

End Float64.

(** ** Track tables *)

Module Tracks.

(** A row of a track file, and the same row with its pixel columns. *)
Record csv_row : Type := {
  csv_Frame : Z;
  csv_Track_ID : Z;
  csv_X_nm : float;
  csv_Y_nm : float
}.

Record track : Type := {
  Frame : Z;
  Track_ID : Z;
  X_nm : float;
  Y_nm : float;
  X_px : Z;
  Y_px : Z
}.

(** The default of the constructor's [nm_per_pixel]. *)
Definition default_nm_per_pixel : float := 117%float.

(** [Series.round()]: to the nearest integer, a tie to the even one. *)
Definition round (q : Q) : Z :=
  let f := Qfloor q in
  match (q - inject_Z f ?= 1 # 2)%Q with
  | Lt => f
  | Gt => f + 1
  | Eq => if Z.even f then f else f + 1
  end.

(** The integer [n] is the nearest one to [q], and the even one of the
    two nearest when [q] lies halfway between them. *)
Definition nearest_even (q : Q) (n : Z) : Prop :=
  (Qabs (q - inject_Z n) <= 1 # 2)%Q ∧
  ((Qabs (q - inject_Z n) == 1 # 2)%Q → Z.even n = true).

(** The range of a signed 64-bit integer. *)
Definition int64_min : Z := - 2 ^ 63.
Definition int64_max : Z := 2 ^ 63 - 1.

(** [.astype(int)] on a rounded float64, with [int] as int64: the
    integer itself when it fits; the conversion of any other value is
    left open by C, and gives the least int64 on x86-64. *)
Definition astype_int (n : Z) : Z :=
  if (int64_min <=? n) && (n <=? int64_max) then n else int64_min.

Definition cannot_convert : exn :=
  ValueError "Cannot convert non-finite values (NA or inf) to integer".

(** [(v / nm_per_pixel).round().astype(int)]: the division is the one of
    float64, and the conversion to integers refuses NaN and the
    infinities (a missing coordinate, a zero scale, an overflow). *)
Definition to_px (nm_per_pixel v : float) : result Z :=
  match Float64.value (PrimFloat.div v nm_per_pixel) with
  | Some q => mret (astype_int (round q))
  | None => Raise cannot_convert
  end.

Section IO.
Variable read_csv : string → result (list csv_row).

Definition _load_tracks (nm_per_pixel : float) (path : string)
  : result (list track) :=
  df ← read_csv path;
  xs ← mapM (fun r => to_px nm_per_pixel (csv_X_nm r)) df;
  ys ← mapM (fun r => to_px nm_per_pixel (csv_Y_nm r)) df;
  mret (zip_with (fun r '(x, y) =>
          {| Frame := csv_Frame r; Track_ID := csv_Track_ID r;
             X_nm := csv_X_nm r; Y_nm := csv_Y_nm r;
             X_px := x; Y_px := y |}) df (zip xs ys)).
End IO.

End Tracks.

(** ** Evaluation of the aligned sets *)

Module Evaluation.

Import Masks Numpy Pixels Metrics Tracks.

(** An element of [self.data]. *)
Record entry : Type := {
  file_number : Z;
  roi_file : string;
  gt_file : string;
  track_file : string;
  roi_mask : list (list Z);
  gt_mask : list (list Z);
  tracks : list track
}.

(** A row of the "Mask Metrics" table. *)
Record metrics_row : Type := {
  mm_File_Number : Z;
  mm_ROI_File : string;
  mm_GT_File : string;
  mm_Jaccard_Index : Q;
  mm_Dice_Coefficient : Q;
  mm_Intersection : Z;
  mm_False_Positives : Z
}.

(** A row of the "Track Comparison" table. *)
Record comparison_row : Type := {
  tc_File_Number : Z;
  tc_ROI_File : string;
  tc_GT_File : string;
  tc_Track_File : string;
  tc_Num_Extra : nat;
  tc_Num_Lost : nat;
  tc_Extra_Track_IDs : string;
  tc_Lost_Track_IDs : string
}.

(** [roi.sum() - inter], an unsigned 64-bit NumPy scalar minus a Python
    integer, both below 2^64. Every NumPy gives the difference when it
    is not negative. When it is negative, NumPy 2 (flag [nep50]) stays
    in uint64 and wraps around, and earlier versions go through float64
    and give the negative number. *)
Definition uint64_minus_int (nep50 : bool) (x y : Z) : Z :=
  if nep50 && (x <? y) then x - y + 2 ^ 64 else x - y.

Section Numpy_version.
Variable nep50 : bool.

(** The body of the loop of [evaluate_mask_metrics]. *)
Definition mask_metrics_row (e : entry) : result metrics_row :=
  let roi := roi_mask e in
  let gt := gt_mask e in
  jaccard ← jaccard_index roi gt;
  dice ← dice_coefficient roi gt;
  both ← logical_and roi gt;
  let inter := count both in
  let false_pos := uint64_minus_int nep50 (sum roi) inter in
  mret {| mm_File_Number := file_number e;
          mm_ROI_File := roi_file e;
          mm_GT_File := gt_file e;
          mm_Jaccard_Index := jaccard;
          mm_Dice_Coefficient := dice;
          mm_Intersection := inter;
          mm_False_Positives := false_pos |}.

Definition evaluate_mask_metrics (data : list entry)
  : result (list metrics_row) :=
  mapM mask_metrics_row data.
End Numpy_version.

(** [set(zip(x_idx, y_idx))] for [y_idx, x_idx = np.where(mask == 1)]. *)
Definition coords (mask : list (list Z)) : gset (Z * Z) :=
  list_to_set ((fun '(y, x) => (Z.of_nat x, Z.of_nat y)) <$> where_eq1 mask).

Definition find_track_ids_in_mask (mask : list (list Z)) (df_tracks : list track)
  : gset Z :=
  let coords := coords mask in
  foldl (fun ids row =>
           let coord := (X_px row, Y_px row) in
           if decide (coord ∈ coords) then ids ∪ {[ Track_ID row ]} else ids)
    ∅ df_tracks.

(** [",".join(map(str, ids)) if ids else ""] *)
Definition join_ids (ids : list Z) : string :=
  match ids with
  | [] => ""
  | _ => String.concat "," (pretty <$> ids)
  end.

(** The lists [extra] and [lost] of one aligned set. *)
Definition extra_lost (e : entry) : list Z * list Z :=
  let first_frame_tracks := filter (fun r => Frame r = 1) (tracks e) in
  let pred_ids := find_track_ids_in_mask (roi_mask e) first_frame_tracks in
  let gt_ids := find_track_ids_in_mask (gt_mask e) first_frame_tracks in
  (Align.sorted (pred_ids ∖ gt_ids), Align.sorted (gt_ids ∖ pred_ids)).

Definition track_comparison_row (e : entry) : comparison_row :=
  let '(extra, lost) := extra_lost e in
  {| tc_File_Number := file_number e;
     tc_ROI_File := roi_file e;
     tc_GT_File := gt_file e;
     tc_Track_File := track_file e;
     tc_Num_Extra := length extra;
     tc_Num_Lost := length lost;
     tc_Extra_Track_IDs := join_ids extra;
     tc_Lost_Track_IDs := join_ids lost |}.

Definition evaluate_track_comparison (data : list entry) : list comparison_row :=
  track_comparison_row <$> data.

(** The pixel (x, y) is foreground in the mask: exactly this pixel, and
    inside the array. *)
Definition foreground (mask : list (list Z)) (x y : Z) : Prop :=
  0 ≤ x ∧ 0 ≤ y ∧ pixel mask (Z.to_nat y) (Z.to_nat x) = Some 1.



End Evaluation.

(** ** Reading the identifiers of a cell back *)

(** What a reader of the workbook does with a cell of track identifiers:
    split it at the commas and read each field as an integer. *)
Module IdText.






End IdText.

(** ** Aligned sets with masks of one shape *)

Module MaskRows.

Import Masks Numpy Pixels Metrics Evaluation.

(** Masks of one shape, as [_read_mask] produces them. *)
Definition same_shape (e : entry) : Prop :=
  rectangular (roi_mask e) ∧ rectangular (gt_mask e) ∧
  shape (roi_mask e) = shape (gt_mask e) ∧
  binary (roi_mask e) ∧ binary (gt_mask e).

#[global] Instance same_shape_dec e : Decision (same_shape e).
Proof. unfold same_shape, rectangular, binary. apply _. Defined.

(** The row of an aligned set in terms of its pixel sets. *)
Definition row_of_sets (e : entry) : metrics_row :=
  let A := fg (roi_mask e) in
  let B := fg (gt_mask e) in
  let inter := Z.of_nat (size (A ∩ B)) in
  let union := Z.of_nat (size (A ∪ B)) in
  let denom := Z.of_nat (size A) + Z.of_nat (size B) in
  {| mm_File_Number := file_number e;
     mm_ROI_File := roi_file e;
     mm_GT_File := gt_file e;
     mm_Jaccard_Index :=
       if union =? 0 then 1%Q else (inject_Z inter / inject_Z union)%Q;
     mm_Dice_Coefficient :=
       if denom =? 0 then 1%Q else (inject_Z (2 * inter) / inject_Z denom)%Q;
     mm_Intersection := inter;
     mm_False_Positives := Z.of_nat (size A) - inter |}.

End MaskRows.

(** ** Directory listings *)

Module Listing.

Import Filenames.

(** [str.lower()] on ASCII letters. *)
Definition lower_char (c : ascii) : ascii :=
  let n := nat_of_ascii c in
  if (65 <=? n)%nat && (n <=? 90)%nat then ascii_of_nat (n + 32) else c.

Fixpoint lower (s : string) : string :=
  match s with
  | EmptyString => EmptyString
  | String c s' => String (lower_char c) (lower s')
  end.

(** [s.endswith(suffix)] *)
Definition endswith (s suffix : string) : bool :=
  let n := String.length s in
  let m := String.length suffix in
  (m <=? n)%nat && String.eqb (substring (n - m) m s) suffix.

(** The suffix of [s] that starts at its last dot. *)
Fixpoint from_last_dot (s : string) : option string :=
  match s with
  | EmptyString => None
  | String c s' =>
      match from_last_dot s' with
      | Some e => Some e
      | None => if Ascii.eqb c "." then Some s else None
      end
  end.

(** [os.path.splitext(f)[1]] for a name without directory: the suffix
    from the last dot, unless only dots come before it. *)
Definition splitext_ext (f : string) : string :=
  match from_last_dot f with
  | Some e =>
      let stem := substring 0 (String.length f - String.length e) f in
      if string_forall (fun c => Ascii.eqb c ".") stem then "" else e
  | None => ""
  end.

Definition exts : list string :=
  [".tif"; ".tiff"; ".png"; ".jpg"; ".jpeg"; ".bmp"].

(** [sorted(files, key=self._extract_number)]: stable insertion by key. *)
Fixpoint insert_by_key (f : string) (l : list string) : list string :=
  match l with
  | [] => [f]
  | g :: l' =>
      if _extract_number g <=? _extract_number f then g :: insert_by_key f l'
      else f :: l
  end.

Definition sorted_by_number (files : list string) : list string :=
  foldl (fun acc f => insert_by_key f acc) [] files.

Section OS.
Variable listdir : string → result (list string).

Definition _list_images (folder : string) : result (list string) :=
  names ← listdir folder;
  let files :=
    filter (fun f => lower (splitext_ext f) ∈ exts) names in
  mret (sorted_by_number files).

Definition _list_tracks (folder : string) : result (list string) :=
  names ← listdir folder;
  let files := filter (fun f => endswith (lower f) ".csv" = true) names in
  mret (sorted_by_number files).
End OS.

(** [os.path.join(folder, name)] for a relative [name]. *)
Definition path_join (folder name : string) : string :=
  if String.eqb folder "" then name
  else if endswith folder "/" then folder +:+ name
  else folder +:+ "/" +:+ name.

End Listing.

(** ** The constructor *)

Module Evaluator.

Import Masks Tracks Evaluation Listing.

Record MaskTrackEvaluator : Type := {
  roi_dir : string;
  gt_dir : string;
  track_dir : string;
  nm_per_pixel : float;
  roi_files : list string;
  gt_files : list string;
  track_files : list string;
  file_triplets : list Align.triplet;
  data : list entry
}.

Definition no_aligned : exn :=
  ValueError "No aligned ROI / GT / Track files found!".

Section IO.
Variable listdir : string → result (list string).
Variable imread : string → result image.
Variable resize : list (list Z) → nat * nat → resize_args → list (list Q).
Variable read_csv : string → result (list csv_row).

(** The body of the loading loop. *)
Definition load_set (roi_dir gt_dir track_dir : string) (nm_per_pixel : float)
    (t : Align.triplet) : result entry :=
  let '(num, roi_name, gt_name, track_name) := t in
  roi_mask ← _read_mask imread (path_join roi_dir roi_name);
  gt_mask ← _read_gt imread resize (path_join gt_dir gt_name);
  df_tracks ← _load_tracks read_csv nm_per_pixel (path_join track_dir track_name);
  mret {| file_number := num;
          roi_file := roi_name;
          gt_file := gt_name;
          track_file := track_name;
          roi_mask := roi_mask;
          gt_mask := gt_mask;
          tracks := df_tracks |}.

(** [__init__]: what is printed, and the evaluator or the exception.
    [None] for [nm_per_pixel] stands for the default. *)
Definition __init__ (roi_dir gt_dir track_dir : string)
    (nm_per_pixel : option float)
  : list notice * result MaskTrackEvaluator :=
  let nm_per_pixel := default default_nm_per_pixel nm_per_pixel in
  match _list_images listdir roi_dir,
        _list_images listdir gt_dir,
        _list_tracks listdir track_dir with
  | Ok roi_files, Ok gt_files, Ok track_files =>
      let '(file_triplets, out) :=
        Align._align_files roi_files gt_files track_files in
      match file_triplets with
      | [] => (out, Raise no_aligned)
      | _ =>
          match mapM (load_set roi_dir gt_dir track_dir nm_per_pixel)
                  file_triplets with
          | Ok data =>
              (out ++ [Loaded (length data)],
               Ok {| roi_dir := roi_dir; gt_dir := gt_dir;
                     track_dir := track_dir;
                     nm_per_pixel := nm_per_pixel;
                     roi_files := roi_files; gt_files := gt_files;
                     track_files := track_files;
                     file_triplets := file_triplets;
                     data := data |})
          | Raise e => (out, Raise e)
          end
      end
  | Raise e, _, _ | _, Raise e, _ | _, _, Raise e => ([], Raise e)
  end.
End IO.

End Evaluator.

(** ** Tables and the summary row *)

Module Frames.

(** A cell of a table: a float64 number, a string, or a missing value.
    The integer columns of the evaluator hold file numbers and counts,
    which float64 holds as they are up to 2^53, and which the summary row
    turns into float64 in any case. *)
Inductive cell : Type :=
| Num (x : float)
| Str (s : string)
| NaN.

Inductive dtype : Type := number | object.

#[global] Instance dtype_eq_dec : EqDecision dtype.
Proof. solve_decision. Defined.

Record Series : Type := {
  name : string;
  dt : dtype;
  values : list cell
}.

(** A [pandas.DataFrame] with the default index: its number of rows and
    its columns in order. *)
Record DataFrame : Type := {
  nrows : nat;
  columns : list Series
}.

(** Every column has one cell for each row, a numeric column holds
    numbers or missing values, and column names are distinct. *)
Definition is_numeric (v : cell) : Prop :=
  match v with Str _ => False | _ => True end.

Definition wf (df : DataFrame) : Prop :=
  Forall (fun c => length (values c) = nrows df ∧
                   (dt c = number → Forall is_numeric (values c)))
    (columns df) ∧
  NoDup (name <$> columns df).

(** [df[n]]: the column of that name. *)
Fixpoint find_column (cs : list Series) (n : string) : option Series :=
  match cs with
  | [] => None
  | c :: cs' => if decide (name c = n) then Some c else find_column cs' n
  end.

Definition column (df : DataFrame) (n : string) : option Series :=
  find_column (columns df) n.

(** [df.at[k, n]] *)
Definition at_ (df : DataFrame) (k : nat) (n : string) : option cell :=
  c ← column df n; values c !! k.

(** The numbers of a column, missing values (the float64 NaN among them)
    skipped. *)
Definition numbers (vs : list cell) : list float :=
  omap (fun v => match v with
                 | Num x => if is_nan x then None else Some x
                 | _ => None
                 end) vs.

(** What the library's summation of float64 numbers may return: the
    numbers are added two at a time, in some order and some grouping
    (left to right, pairwise, in blocks), and zeros may be added on the
    way. *)
Inductive sums_to : list float → float → Prop :=
| sums_nil : sums_to [] 0%float
| sums_one x : sums_to [x] x
| sums_add xs ys zs s t :
    zs ≡ₚ xs ++ ys → sums_to xs s → sums_to ys t →
    sums_to zs (PrimFloat.add s t).

(** The summation from left to right, starting at zero. *)
Definition sum_ltr (xs : list float) : float :=
  foldl PrimFloat.add 0%float xs.

Section Summation.
(** The summation of the library, [ndarray.sum] or its replacement. *)
Variable fsum : list float → float.

(** [Series.mean()]: missing values are skipped, the float64 sum of the
    others is divided by their number, and the mean of no value is
    missing. *)
Definition mean (vs : list cell) : cell :=
  match numbers vs with
  | [] => NaN
  | xs => Num (PrimFloat.div (fsum xs) (Float64.of_Z (Z.of_nat (length xs))))
  end.

End Summation.

(** [d[k] = v] on a dictionary kept in insertion order. *)
Fixpoint dict_set (d : list (string * cell)) (k : string) (v : cell)
  : list (string * cell) :=
  match d with
  | [] => [(k, v)]
  | (k', v') :: d' =>
      if decide (k' = k) then (k, v) :: d' else (k', v') :: dict_set d' k v
  end.

Fixpoint dict_get (d : list (string * cell)) (k : string) : option cell :=
  match d with
  | [] => None
  | (k', v') :: d' => if decide (k' = k) then Some v' else dict_get d' k
  end.

(** [pd.DataFrame([d])] *)
Definition frame_of_dict (d : list (string * cell)) : DataFrame :=
  {| nrows := 1;
     columns :=
       (fun '(k, v) =>
          {| name := k;
             dt := match v with Str _ => object | _ => number end;
             values := [v] |}) <$> d |}.

Definition values_or_nan (df : DataFrame) (n : string) : list cell :=
  match column df n with
  | Some c => values c
  | None => replicate (nrows df) NaN
  end.

Definition dt_or_number (df : DataFrame) (n : string) : dtype :=
  match column df n with
  | Some c => dt c
  | None => number
  end.

(** [pd.concat([a, b], ignore_index=True)]: the columns of [a], then the
    new ones of [b]; a column absent from a frame is missing there. *)
Definition concat (a b : DataFrame) : DataFrame :=
  let names_a := name <$> columns a in
  let names := names_a ++ filter (fun n => n ∉ names_a) (name <$> columns b) in
  {| nrows := nrows a + nrows b;
     columns :=
       (fun n =>
          {| name := n;
             dt := if decide (dt_or_number a n = number ∧
                              dt_or_number b n = number)
                   then number else object;
             values := values_or_nan a n ++ values_or_nan b n |}) <$> names |}.

Definition default_label : string := "Overall Average".

Section Summary.
Variable fsum : list float → float.

(** The dictionary [summary] of [summarize_results]. *)
Definition summary_dict (df : DataFrame) (label : string)
  : list (string * cell) :=
  let numeric_cols := filter (fun c => dt c = number) (columns df) in
  let summary := (fun c => (name c, mean fsum (values c))) <$> numeric_cols in
  dict_set summary "File Number" (Str label).

(** [summarize_results]; [None] for [label] stands for the default. *)
Definition summarize_results (df : DataFrame) (label : option string)
  : DataFrame :=
  let label := default default_label label in
  concat df (frame_of_dict (summary_dict df label)).
End Summary.

End Frames.

(** ** The two tables of the workbook *)

Module Report.

Import Evaluation Frames.

Definition num_Z (z : Z) : cell := Num (Float64.of_Z z).

(** A metric in a table: the float64 quotient of its two counts. *)
Definition num_Q (q : Q) : cell := Num (Float64.of_Q q).

(** [pd.DataFrame(rows)] at the end of [evaluate_mask_metrics]. *)
Definition metrics_frame (rows : list metrics_row) : DataFrame :=
  match rows with
  | [] => {| nrows := 0; columns := [] |}
  | _ =>
      {| nrows := length rows;
         columns :=
           [ {| name := "File Number"; dt := number;
                values := (fun r => num_Z (mm_File_Number r)) <$> rows |};
             {| name := "ROI File"; dt := object;
                values := (fun r => Str (mm_ROI_File r)) <$> rows |};
             {| name := "GT File"; dt := object;
                values := (fun r => Str (mm_GT_File r)) <$> rows |};
             {| name := "Jaccard Index"; dt := number;
                values := (fun r => num_Q (mm_Jaccard_Index r)) <$> rows |};
             {| name := "Dice Coefficient"; dt := number;
                values := (fun r => num_Q (mm_Dice_Coefficient r)) <$> rows |};
             {| name := "Intersection"; dt := number;
                values := (fun r => num_Z (mm_Intersection r)) <$> rows |};
             {| name := "False Positives"; dt := number;
                values := (fun r => num_Z (mm_False_Positives r)) <$> rows |} ] |}
  end.

(** [pd.DataFrame(rows)] at the end of [evaluate_track_comparison]. *)
Definition comparison_frame (rows : list comparison_row) : DataFrame :=
  match rows with
  | [] => {| nrows := 0; columns := [] |}
  | _ =>
      {| nrows := length rows;
         columns :=
           [ {| name := "File Number"; dt := number;
                values := (fun r => num_Z (tc_File_Number r)) <$> rows |};
             {| name := "ROI File"; dt := object;
                values := (fun r => Str (tc_ROI_File r)) <$> rows |};
             {| name := "GT File"; dt := object;
                values := (fun r => Str (tc_GT_File r)) <$> rows |};
             {| name := "Track File"; dt := object;
                values := (fun r => Str (tc_Track_File r)) <$> rows |};
             {| name := "Num Extra"; dt := number;
                values := (fun r => num_Z (Z.of_nat (tc_Num_Extra r))) <$> rows |};
             {| name := "Num Lost"; dt := number;
                values := (fun r => num_Z (Z.of_nat (tc_Num_Lost r))) <$> rows |};
             {| name := "Extra Track IDs"; dt := object;
                values := (fun r => Str (tc_Extra_Track_IDs r)) <$> rows |};
             {| name := "Lost Track IDs"; dt := object;
                values := (fun r => Str (tc_Lost_Track_IDs r)) <$> rows |} ] |}
  end.

Section Summation.
Variable fsum : list float → float.

(** [save_results]: the sheets written to the workbook, in order, and
    what is printed. *)
Definition save_results (nep50 : bool) (data : list entry)
    (excel_filename : string) (track_comparison : bool)
  : result (list (string * DataFrame)) * list notice :=
  match evaluate_mask_metrics nep50 data with
  | Ok rows =>
      let df_metrics := summarize_results fsum (metrics_frame rows) None in
      let sheets :=
        ("Mask Metrics", df_metrics) ::
        (if track_comparison then
           [("Track Comparison",
             summarize_results fsum
               (comparison_frame (evaluate_track_comparison data)) None)]
         else []) in
      (Ok sheets, [Saved excel_filename])
  | Raise e => (Raise e, [])
  end.
End Summation.

#[global] Instance is_numeric_dec v : Decision (is_numeric v).
Proof. destruct v; simpl; apply _. Defined.

#[global] Instance wf_dec df : Decision (wf df).
Proof. unfold wf. apply _. Defined.

End Report.

(** ** Example data *)

(** A 500 x 500 ground-truth file, all foreground. *)
Definition gt_500 : list (list Z) := replicate 500 (replicate 500 1).

(** A nearest-neighbour resampler for the examples: the output pixel
    (i, j) copies the input pixel (i * h / H, j * w / W). *)
Definition nearest_resize (a : list (list Z)) (s : nat * nat)
    (_ : Masks.resize_args) : list (list Q) :=
  let '(h, w) := Masks.shape a in
  (fun i =>
     (fun j =>
        inject_Z (default 0 (Masks.pixel a (i * h / s.1) (j * w / s.2))))
     <$> seq 0 s.2) <$> seq 0 s.1.

(** A 2 x 2 image file, white on its diagonal. *)
Definition image_diag : Masks.image := Masks.Gray [[255; 0]; [0; 255]].

(** Two 2 x 2 masks that share one of their three foreground pixels. *)
Definition mask_diag : list (list Z) := [[1; 0]; [0; 1]].
Definition mask_top : list (list Z) := [[1; 1]; [0; 0]].

(** A track file with one row, at (1170 nm, 292.5 nm). *)
Definition one_track_csv : list Tracks.csv_row :=
  [ {| Tracks.csv_Frame := 1; Tracks.csv_Track_ID := 4;
       Tracks.csv_X_nm := 1170; Tracks.csv_Y_nm := 292.5 |} ].

(** A track file whose quotients by 106.7 and by 0.1 are the float64
    numbers 3.5 and 7.5, although 373.45 / 106.7 and 0.75 / 0.1 are not. *)
Definition halfway_csv : list Tracks.csv_row :=
  [ {| Tracks.csv_Frame := 1; Tracks.csv_Track_ID := 1;
       Tracks.csv_X_nm := 373.45; Tracks.csv_Y_nm := 373.45 |} ].

(** A track file with a coordinate far outside any image, and one with a
    missing coordinate. *)
Definition far_track_csv : list Tracks.csv_row :=
  [ {| Tracks.csv_Frame := 1; Tracks.csv_Track_ID := 4;
       Tracks.csv_X_nm := 2e21; Tracks.csv_Y_nm := 1170 |} ].

Definition missing_track_csv : list Tracks.csv_row :=
  [ {| Tracks.csv_Frame := 1; Tracks.csv_Track_ID := 4;
       Tracks.csv_X_nm := nan; Tracks.csv_Y_nm := 1170 |} ].

(** A table with one numeric column, 0, 0 and 1. *)
Definition thirds_table : Frames.DataFrame :=
  {| Frames.nrows := 3;
     Frames.columns :=
       [ {| Frames.name := "Score"; Frames.dt := Frames.number;
            Frames.values := [Frames.Num 0; Frames.Num 0; Frames.Num 1] |} ] |}.





(** An aligned set with two 2 x 2 masks. *)
Definition entry_2x2 : Evaluation.entry :=
  {| Evaluation.file_number := 5;
     Evaluation.roi_file := "roi_5.png";
     Evaluation.gt_file := "gt_5.tif";
     Evaluation.track_file := "tracks_5.csv";
     Evaluation.roi_mask := mask_diag;
     Evaluation.gt_mask := mask_top;
     Evaluation.tracks := [] |}.

(** A predicted mask of one pixel next to a full 428 x 428 ground truth:
    NumPy broadcasts the single pixel over the whole ground truth. *)
Definition entry_1x1 : Evaluation.entry :=
  {| Evaluation.file_number := 5;
     Evaluation.roi_file := "roi_5.png";
     Evaluation.gt_file := "gt_5.tif";
     Evaluation.track_file := "tracks_5.csv";
     Evaluation.roi_mask := [[1]];
     Evaluation.gt_mask := replicate 428 (replicate 428 1);
     Evaluation.tracks := [] |}.

(** A file system with one aligned set, whose three files hold a single
    white pixel and one track row. *)
Definition listdir_one (folder : string) : result (list string) :=
  Ok (if String.eqb folder "roi" then ["roi_5.png"]
      else if String.eqb folder "gt" then ["gt_5.tif"; "notes.txt"]
      else ["tracks_5.csv"]).

(** The "Mask Metrics" table of two aligned sets. *)
Definition two_rows : list Evaluation.metrics_row :=
  [ {| Evaluation.mm_File_Number := 2;
       Evaluation.mm_ROI_File := "roi_2.png";
       Evaluation.mm_GT_File := "gt_2.tif";
       Evaluation.mm_Jaccard_Index := 1 # 3;
       Evaluation.mm_Dice_Coefficient := 1 # 2;
       Evaluation.mm_Intersection := 1;
       Evaluation.mm_False_Positives := 1 |};
    {| Evaluation.mm_File_Number := 3;
       Evaluation.mm_ROI_File := "roi_3.png";
       Evaluation.mm_GT_File := "gt_3.tif";
       Evaluation.mm_Jaccard_Index := 1;
       Evaluation.mm_Dice_Coefficient := 1;
       Evaluation.mm_Intersection := 4;
       Evaluation.mm_False_Positives := 0 |} ].

(** An aligned set whose predicted mask (2 x 2) cannot be broadcast to
    its ground-truth mask (3 x 3). *)
Definition entry_mismatch : Evaluation.entry :=
  {| Evaluation.file_number := 7;
     Evaluation.roi_file := "roi_7.png";
     Evaluation.gt_file := "gt_7.tif";
     Evaluation.track_file := "tracks_7.csv";
     Evaluation.roi_mask := mask_diag;
     Evaluation.gt_mask := replicate 3 (replicate 3 1);
     Evaluation.tracks := [] |}.

(** * Properties *)

Lemma bind_Ok {A B} (a : A) (k : A → result B) : (Ok a ≫= k) = k a.
Proof. reflexivity. Qed.

Lemma bind_Raise {A B} (e : exn) (k : A → result B) : (Raise e ≫= k) = Raise e.
Proof. reflexivity. Qed.

Lemma fmap_fixed {A} (f : A → A) (l : list A) :
  Forall (fun x => f x = x) l → f <$> l = l.
Proof. induction 1; simpl; [done | by f_equal]. Qed.

(** ** Loops that can raise *)

Lemma mapM_Ok_fmap {A B} (f : A → result B) (g : A → B) (l : list A) :
  Forall (fun x => f x = Ok (g x)) l → mapM f l = Ok (g <$> l).
Proof.
  induction 1 as [|x l Hx Hl IH]; simpl; [done|]. by rewrite Hx, IH.
Qed.

Lemma mapM_Raise {A B} (f : A → result B) (l : list A) (e : exn) :
  mapM f l = Raise e → ∃ x, x ∈ l ∧ f x = Raise e.
Proof.
  induction l as [|x l IH]; simpl; [done|].
  destruct (f x) as [y|e'] eqn:Hx; simpl.
  - destruct (mapM f l) as [ys|e'']; simpl; [done|].
    intros [= ->]. destruct IH as (x' & Hin & Hx'); [done|].
    exists x'. split; [by apply list_elem_of_further | done].
  - intros [= ->]. exists x. split; [apply list_elem_of_here | done].
Qed.

Lemma mapM_Ok_length {A B} (f : A → result B) (l : list A) (ys : list B) :
  mapM f l = Ok ys → length ys = length l.
Proof.
  revert ys. induction l as [|x l IH]; intros ys; simpl.
  - by intros [= <-].
  - destruct (f x) as [y|e]; simpl; [|done].
    destruct (mapM f l) as [ys'|e]; simpl; [|done].
    intros [= <-]. simpl. f_equal. by apply IH.
Qed.

Lemma mapM_Ok_lookup {A B} (f : A → result B) (l : list A) (ys : list B) :
  mapM f l = Ok ys →
  ∀ k y, ys !! k = Some y → ∃ x, l !! k = Some x ∧ f x = Ok y.
Proof.
  revert ys. induction l as [|x l IH]; intros ys; simpl.
  - intros [= <-] k y Hk. by rewrite lookup_nil in Hk.
  - destruct (f x) as [y0|e] eqn:Hx; [|rewrite bind_Raise; intros H; discriminate H].
    rewrite bind_Ok.
    destruct (mapM f l) as [ys'|e] eqn:Hl;
      [|rewrite bind_Raise; intros H; discriminate H].
    rewrite bind_Ok. intros [= <-] [|k] y Hk; simpl in Hk.
    + injection Hk as <-. by exists x.
    + by apply (IH ys' eq_refl).
Qed.

(** ** Facts about [Filenames] *)

Module FilenamesFacts.

Import Filenames.

Lemma append_nil_r (s : string) : s +:+ EmptyString = s.
Proof. induction s as [|c s IH]; simpl; [done | by f_equal]. Qed.

Lemma append_assoc (s1 s2 s3 : string) :
  (s1 +:+ s2) +:+ s3 = s1 +:+ (s2 +:+ s3).
Proof. induction s1 as [|c s1 IH]; simpl; [done | by f_equal]. Qed.

Lemma findall_no_digit (cur s : string) :
  no_digit s = true → findall_from cur s = flush cur.
Proof.
  revert cur. induction s as [|c s IH]; intros cur H; simpl in *; [done|].
  apply andb_prop in H as [Hc Hs].
  apply negb_true_iff in Hc. rewrite Hc.
  rewrite (IH EmptyString Hs). simpl. by rewrite app_nil_r.
Qed.

Lemma findall_run (cur run post : string) :
  all_digits run = true → no_digit post = true →
  findall_from cur (run +:+ post) = flush (cur +:+ run).
Proof.
  revert cur. induction run as [|c run IH]; intros cur Hr Hp; simpl in *.
  - rewrite append_nil_r. by apply findall_no_digit.
  - apply andb_prop in Hr as [Hc Hr]. rewrite Hc.
    rewrite (IH _ Hr Hp). by rewrite append_assoc.
Qed.

Lemma findall_after_nondigit (cur pre : string) (c : ascii) (s : string) :
  is_digit c = false →
  ∃ l, findall_from cur ((pre +:+ String c EmptyString) +:+ s)
       = l ++ findall_from EmptyString s.
Proof.
  intros Hc. revert cur. induction pre as [|d pre IH]; intros cur; simpl.
  - rewrite Hc. by exists (flush cur).
  - destruct (is_digit d).
    + apply IH.
    + destruct (IH EmptyString) as [l Hl]. exists (flush cur ++ l).
      by rewrite Hl, app_assoc.
Qed.

Lemma findall_last_run (pre run post : string) :
  run_boundary pre → run ≠ EmptyString →
  all_digits run = true → no_digit post = true →
  last (findall_digits (pre +:+ run +:+ post)) = Some run.
Proof.
  intros Hpre Hne Hr Hp. unfold findall_digits.
  assert (Hrun : findall_from EmptyString (run +:+ post) = [run]).
  { rewrite findall_run by done. simpl. by destruct run. }
  destruct Hpre as [-> | (pre' & c & -> & Hc)]; simpl.
  - by rewrite Hrun.
  - destruct (findall_after_nondigit EmptyString pre' c (run +:+ post) Hc)
      as [l Hl].
    rewrite Hl, Hrun. by rewrite last_snoc.
Qed.

Lemma findall_none (s : string) :
  no_digit s = true → findall_digits s = [].
Proof. intros H. unfold findall_digits. by rewrite findall_no_digit. Qed.

(** Every string has no digit at all, or splits around its last run. *)
Lemma last_run_exists (s : string) :
  no_digit s = true ∨
  ∃ pre run post,
    s = pre +:+ run +:+ post ∧ run_boundary pre ∧ run ≠ EmptyString ∧
    all_digits run = true ∧ no_digit post = true.
Proof.
  induction s as [|c s IH]; [by left|].
  destruct (is_digit c) eqn:Hc.
  - right. destruct IH as [Hs | (pre & run & post & -> & Hb & Hne & Hr & Hp)].
    + exists EmptyString, (String c EmptyString), s. simpl.
      unfold all_digits. simpl. rewrite Hc. repeat split; try done. by left.
    + destruct Hb as [-> | (pre' & d & -> & Hd)].
      * exists EmptyString, (String c run), post. simpl.
        unfold all_digits in *. simpl. rewrite Hc, Hr.
        repeat split; try done. by left.
      * exists (String c pre' +:+ String d EmptyString), run, post.
        repeat split; try done. right. by exists (String c pre'), d.
  - destruct IH as [Hs | (pre & run & post & -> & Hb & Hne & Hr & Hp)].
    + left. unfold no_digit in *. simpl. by rewrite Hc, Hs.
    + right. exists (String c pre), run, post. repeat split; try done.
      right. destruct Hb as [-> | (pre' & d & -> & Hd)].
      * by exists EmptyString, c.
      * by exists (String c pre'), d.
Qed.

End FilenamesFacts.

(** C4. Identifier extraction returns the integer value of the last run of
    consecutive digits of the file name, and the sentinel -1 when the file
    name has no digit: every file name either has no digit, and the result
    is -1, or splits as [pre ++ run ++ post] with [run] a non-empty maximal
    run of digits followed by no further digit, and the result is
    [int run]; it is 7 on "cell_007.tif" and -1 on "noNumberHere.png". *)
Theorem extract_number_last_run :
  (∀ filename : string,
      (Filenames.no_digit filename = true ∧
       Filenames._extract_number filename = -1) ∨
      (∃ pre run post,
          filename = pre +:+ run +:+ post ∧
          Filenames.run_boundary pre ∧ run ≠ EmptyString ∧
          Filenames.all_digits run = true ∧
          Filenames.no_digit post = true ∧
          Filenames._extract_number filename = Filenames.int run)) ∧
  Filenames._extract_number "cell_007.tif" = 7 ∧
  Filenames._extract_number "noNumberHere.png" = -1.
Proof.
  split; [|split; reflexivity].
  intros filename.
  destruct (FilenamesFacts.last_run_exists filename)
    as [Hn | (pre & run & post & -> & Hb & Hne & Hr & Hp)].
  - left. split; [done|].
    unfold Filenames._extract_number. by rewrite FilenamesFacts.findall_none.
  - right. exists pre, run, post. repeat split; try done.
    unfold Filenames._extract_number.
    by rewrite FilenamesFacts.findall_last_run.
Qed.

(** ** Facts about [Align] *)

Module AlignFacts.

Import Filenames FilenamesFacts Align.

Lemma number_map_foldl_dom (files : list string) (m : gmap Z string) :
  dom (foldl (fun m f => <[_extract_number f := f]> m) m files)
  = dom m ∪ ids files.
Proof.
  revert m. induction files as [|f files IH]; intros m; simpl.
  - unfold ids. simpl. set_solver.
  - rewrite IH, dom_insert_L. unfold ids. simpl. set_solver.
Qed.

Lemma number_map_dom (files : list string) :
  dom (number_map files) = ids files.
Proof.
  unfold number_map. rewrite number_map_foldl_dom, dom_empty_L. set_solver.
Qed.

Lemma number_map_foldl_lookup (files : list string) (m : gmap Z string) n f :
  foldl (fun m f => <[_extract_number f := f]> m) m files !! n = Some f →
  m !! n = Some f ∨ (f ∈ files ∧ _extract_number f = n).
Proof.
  revert m. induction files as [|g files IH]; intros m H; simpl in *.
  - by left.
  - apply IH in H as [H | [H1 H2]].
    + destruct (decide (_extract_number g = n)) as [<- | Hne].
      * rewrite lookup_insert_eq in H. injection H as <-.
        right. split; [apply list_elem_of_here | done].
      * rewrite lookup_insert_ne in H by done. by left.
    + right. split; [by apply list_elem_of_further | done].
Qed.

Lemma number_map_lookup (files : list string) n f :
  number_map files !! n = Some f → f ∈ files ∧ _extract_number f = n.
Proof.
  intros H. apply number_map_foldl_lookup in H as [H | H]; [|done].
  by rewrite lookup_empty in H.
Qed.

Lemma elem_of_sorted (s : gset Z) n : n ∈ sorted s ↔ n ∈ s.
Proof.
  unfold sorted. rewrite merge_sort_Permutation. apply elem_of_elements.
Qed.

Lemma StronglySorted_le_lt (l : list Z) :
  StronglySorted Z.le l → NoDup l → StronglySorted Z.lt l.
Proof.
  induction 1 as [|x l Hl IH Hx]; intros Hnd; constructor.
  - apply IH. by apply NoDup_cons_1_2 in Hnd.
  - apply NoDup_cons in Hnd as [Hnotin _].
    rewrite Forall_forall in *. intros y Hy.
    specialize (Hx y Hy). assert (x ≠ y) by (intros ->; done). lia.
Qed.

Lemma sorted_ascending (s : gset Z) : StronglySorted Z.lt (sorted s).
Proof.
  apply StronglySorted_le_lt.
  - apply StronglySorted_merge_sort; apply _.
  - unfold sorted. rewrite merge_sort_Permutation. apply NoDup_elements.
Qed.

Lemma aligned_nums (r g t : list string) :
  triplet_num <$> (_align_files r g t).1
  = sorted (ids r ∩ ids g ∩ ids t).
Proof.
  unfold _align_files. simpl. rewrite <- list_fmap_compose.
  rewrite !number_map_dom. rewrite <- (list_fmap_id (sorted _)) at 2.
  by apply list_fmap_ext.
Qed.

End AlignFacts.

(** C3. The aligned list holds exactly the identifiers of the intersection
    of the three collections' extracted identifiers, as triplets in
    ascending order of identifier, each triplet naming a file of each
    collection with that identifier; the identifiers printed as missing
    are exactly those of the union that are not in the intersection. For
    identifiers {1,2,3}, {2,3,4} and {2,3} the aligned identifiers are 2
    and 3 and the missing ones 1 and 4. *)
Theorem align_files_intersection :
  (∀ r g t : list string,
      let aligned := (Align._align_files r g t).1 in
      let out := (Align._align_files r g t).2 in
      (∀ n, n ∈ Align.triplet_num <$> aligned
            ↔ n ∈ Align.ids r ∩ Align.ids g ∩ Align.ids t) ∧
      StronglySorted Z.lt (Align.triplet_num <$> aligned) ∧
      (∀ n a b c, (n, a, b, c) ∈ aligned →
         (a ∈ r ∧ Filenames._extract_number a = n) ∧
         (b ∈ g ∧ Filenames._extract_number b = n) ∧
         (c ∈ t ∧ Filenames._extract_number c = n)) ∧
      (∀ n, n ∈ Align.reported out
            ↔ n ∈ Align.ids r ∪ Align.ids g ∪ Align.ids t ∧
              n ∉ Align.ids r ∩ Align.ids g ∩ Align.ids t)) ∧
  Align._align_files
    ["roi_1.png"; "roi_2.png"; "roi_3.png"]
    ["gt_2.tif"; "gt_3.tif"; "gt_4.tif"]
    ["tracks_2.csv"; "tracks_3.csv"]
  = ([(2, "roi_2.png", "gt_2.tif", "tracks_2.csv");
      (3, "roi_3.png", "gt_3.tif", "tracks_3.csv")],
     [MissingSets [1; 4]]).
Proof.
  split; [|by vm_compute].
  intros r g t aligned out.
  assert (Hnums : Align.triplet_num <$> aligned
                  = Align.sorted (Align.ids r ∩ Align.ids g ∩ Align.ids t))
    by apply AlignFacts.aligned_nums.
  split; [|split; [|split]].
  - intros n. rewrite Hnums. apply AlignFacts.elem_of_sorted.
  - rewrite Hnums. apply AlignFacts.sorted_ascending.
  - intros n a b c Hin. subst aligned. unfold Align._align_files in Hin.
    simpl in Hin. apply list_elem_of_fmap in Hin as (num & Heq & Hnum).
    injection Heq as -> -> -> ->.
    apply AlignFacts.elem_of_sorted in Hnum.
    rewrite !elem_of_intersection, !elem_of_dom in Hnum.
    destruct Hnum as [[[a Ha] [b Hb]] [c Hc]].
    rewrite (lookup_total_correct _ _ _ Ha), (lookup_total_correct _ _ _ Hb),
      (lookup_total_correct _ _ _ Hc).
    by repeat split; eapply AlignFacts.number_map_lookup.
  - intros n. subst out aligned. unfold Align._align_files in *.
    cbv zeta in *. simpl fst in Hnums. simpl snd.
    rewrite Hnums, !AlignFacts.number_map_dom.
    set (U := Align.ids r ∪ Align.ids g ∪ Align.ids t).
    set (I := Align.ids r ∩ Align.ids g ∩ Align.ids t).
    assert (Hm : ∀ k, k ∈ U ∖ list_to_set (C:=gset Z) (Align.sorted I)
                      ↔ k ∈ U ∧ k ∉ I).
    { intros k. rewrite elem_of_difference, elem_of_list_to_set.
      by rewrite AlignFacts.elem_of_sorted. }
    case_decide as He; unfold Align.reported; simpl.
    + split; [by intros ?%elem_of_nil|].
      intros Hk%Hm. rewrite He in Hk. set_solver.
    + rewrite app_nil_r, AlignFacts.elem_of_sorted. apply Hm.
Qed.

(** ** Facts about [Masks] *)

Module MasksFacts.

Import Masks.

Lemma pixel_window {A} (a : list (list A)) (sh sw i j : nat) :
  (i < canonical)%nat → (j < canonical)%nat →
  pixel (window a sh sw) i j = pixel a (sh + i) (sw + j).
Proof.
  intros Hi Hj. unfold pixel, window.
  rewrite list_lookup_fmap, lookup_take_lt, lookup_drop by done.
  destruct (a !! (sh + i)%nat) as [r|]; simpl; [|done].
  by rewrite lookup_take_lt, lookup_drop.
Qed.

Lemma shape_window {A} (a : list (list A)) (sh sw : nat) :
  rectangular a →
  (sh + canonical ≤ (shape a).1)%nat → (sw + canonical ≤ (shape a).2)%nat →
  shape (window a sh sw) = (canonical, canonical) ∧
  rectangular (window a sh sw).
Proof.
  intros Hrect Hh Hw. set (w := (shape a).2) in *.
  assert (Hrows : Forall (fun r => length r = canonical) (window a sh sw)).
  { unfold window. apply Forall_fmap, Forall_take, Forall_drop.
    eapply Forall_impl; [exact Hrect|]. intros r Hr. simpl.
    rewrite length_take, length_drop. fold w in Hr.
    unfold canonical in *. lia. }
  assert (Hlen : length (window a sh sw) = canonical).
  { unfold window. rewrite length_fmap, length_take, length_drop.
    simpl in Hh. unfold canonical in *. lia. }
  assert (Hshape : shape (window a sh sw) = (canonical, canonical)).
  { unfold shape. rewrite Hlen. f_equal.
    destruct (window a sh sw) as [|r rs]; [by compute in Hlen|].
    by apply Forall_cons in Hrows as [Hr _]. }
  split; [done|]. unfold rectangular. by rewrite Hshape.
Qed.

Lemma pixel_binarize_half (a : list (list Q)) (i j : nat) :
  pixel (binarize_half a) i j
  = (fun v => if Qle_bool v (1 # 2) then 0 else 1) <$> pixel a i j.
Proof.
  unfold pixel, binarize_half. rewrite list_lookup_fmap.
  destruct (a !! i) as [r|]; simpl; [|done]. by rewrite list_lookup_fmap.
Qed.

Lemma shape_binarize_half (a : list (list Q)) :
  shape (binarize_half a) = shape a ∧
  (rectangular a → rectangular (binarize_half a)).
Proof.
  assert (Hs : shape (binarize_half a) = shape a).
  { unfold shape, binarize_half. rewrite length_fmap.
    destruct a as [|r a]; simpl; [done|]. by rewrite length_fmap. }
  split; [done|]. unfold rectangular. rewrite Hs. intros Hr.
  unfold binarize_half. apply Forall_fmap.
  eapply Forall_impl; [exact Hr|]. intros r Hlen. simpl.
  by rewrite length_fmap.
Qed.

End MasksFacts.

(** C2. Ground-truth normalisation has three tiers. A 428 x 428 mask is
    returned as it is. A mask with both dimensions at least 428 gives the
    428 x 428 window whose corner is at floor((dim - 428) / 2) on each
    axis, so at (36, 36) for a 500 x 500 mask. Any other mask (one
    dimension below 428) is passed whole to the resampling routine with
    output shape 428 x 428, order 0 (nearest neighbour), no anti-aliasing
    and the range preserved. The result has the shape of the resampled
    grid, 428 x 428 when the routine returns the shape it was asked for,
    and it is that grid thresholded at 0.5: a pixel is 1 where the
    resampled value is above 0.5 and 0 where it is 0.5 or below, so a
    value 0 or 1 that nearest-neighbour resampling copied from the mask
    comes out as it went in. *)
Theorem read_gt_three_tier
    (imread : string → result Masks.image)
    (resize : list (list Z) → nat * nat → Masks.resize_args → list (list Q))
    (path : string) (mask : list (list Z)) (h w : nat) :
  Masks._read_mask imread path = Ok mask →
  Masks.rectangular mask →
  Masks.shape mask = (h, w) →
  (h = 428%nat ∧ w = 428%nat →
     Masks._read_gt imread resize path = Ok mask) ∧
  ((428 ≤ h)%nat ∧ (428 ≤ w)%nat →
     ∃ gt, Masks._read_gt imread resize path = Ok gt ∧
       Masks.shape gt = (428%nat, 428%nat) ∧ Masks.rectangular gt ∧
       ∀ i j, (i < 428)%nat → (j < 428)%nat →
         Masks.pixel gt i j
         = Masks.pixel mask ((h - 428) / 2 + i)%nat ((w - 428) / 2 + j)%nat) ∧
  (h = 500%nat ∧ w = 500%nat →
     ∃ gt, Masks._read_gt imread resize path = Ok gt ∧
       ∀ i j, (i < 428)%nat → (j < 428)%nat →
         Masks.pixel gt i j = Masks.pixel mask (36 + i)%nat (36 + j)%nat) ∧
  ((h < 428)%nat ∨ (w < 428)%nat →
     let resized :=
       resize mask (428%nat, 428%nat)
         {| Masks.order := 0; Masks.preserve_range := true;
            Masks.anti_aliasing := false |} in
     ∃ gt, Masks._read_gt imread resize path = Ok gt ∧
       Masks.shape gt = Masks.shape resized ∧
       (Masks.shape resized = (428%nat, 428%nat) →
        Masks.shape gt = (428%nat, 428%nat)) ∧
       (Masks.rectangular resized → Masks.rectangular gt) ∧
       (∀ i j, Masks.pixel resized i j = None → Masks.pixel gt i j = None) ∧
       (∀ i j v, Masks.pixel resized i j = Some v →
          ((1 # 2 < v)%Q → Masks.pixel gt i j = Some 1) ∧
          ((v <= 1 # 2)%Q → Masks.pixel gt i j = Some 0)) ∧
       (∀ i j b, Masks.pixel resized i j = Some (inject_Z b) →
          b = 0 ∨ b = 1 → Masks.pixel gt i j = Some b)).
Proof.
  intros Hread Hrect Hshape.
  assert (Hcrop : (428 ≤ h)%nat ∧ (428 ≤ w)%nat →
    ∃ gt, Masks._read_gt imread resize path = Ok gt ∧
      Masks.shape gt = (428%nat, 428%nat) ∧ Masks.rectangular gt ∧
      ∀ i j, (i < 428)%nat → (j < 428)%nat →
        Masks.pixel gt i j
        = Masks.pixel mask ((h - 428) / 2 + i)%nat ((w - 428) / 2 + j)%nat).
  { intros [Hh Hw]. unfold Masks._read_gt. rewrite Hread, bind_Ok.
    rewrite Hshape. case_decide as Heq.
    - injection Heq as -> ->. exists mask. by repeat split.
    - apply Nat.leb_le in Hh as Hh', Hw as Hw'.
      unfold Masks.canonical at 1 2. rewrite Hh', Hw'. cbv beta iota.
      change (true && true) with true. cbv iota.
      eexists. split; [reflexivity|].
      assert (Hoff : ∀ d, (428 ≤ d → (d - 428) / 2 + 428 ≤ d)%nat).
      { intros d Hd.
        pose proof (Nat.Div0.div_le_upper_bound (d - 428) 2 (d - 428)). lia. }
      destruct (MasksFacts.shape_window mask ((h - Masks.canonical) / 2)
                  ((w - Masks.canonical) / 2) Hrect) as [Hs Hr].
      + rewrite Hshape. simpl. by apply Hoff.
      + rewrite Hshape. simpl. by apply Hoff.
      + repeat split; try done. intros i j Hi Hj.
        by apply MasksFacts.pixel_window. }
  split; [|split; [done|split]].
  - intros [-> ->]. unfold Masks._read_gt. rewrite Hread, bind_Ok.
    by rewrite decide_True.
  - intros [-> ->]. destruct Hcrop as (gt & Hgt & _ & _ & Hpx); [lia|].
    exists gt. split; [done|]. intros i j Hi Hj. by rewrite Hpx.
  - intros Hsmall resized. unfold Masks._read_gt. rewrite Hread, bind_Ok.
    rewrite Hshape. rewrite decide_False.
    2:{ intros Heq. injection Heq as -> ->. unfold Masks.canonical in *. lia. }
    assert (Hb : (Masks.canonical <=? h)%nat && (Masks.canonical <=? w)%nat
                 = false).
    { apply andb_false_iff. rewrite !Nat.leb_gt. exact Hsmall. }
    rewrite Hb. fold Masks.canonical. fold resized.
    exists (Masks.binarize_half resized). split; [reflexivity|].
    destruct (MasksFacts.shape_binarize_half resized) as [Hs Hr].
    assert (Hpx : ∀ i j v, Masks.pixel resized i j = Some v →
      ((1 # 2 < v)%Q → Masks.pixel (Masks.binarize_half resized) i j = Some 1) ∧
      ((v <= 1 # 2)%Q → Masks.pixel (Masks.binarize_half resized) i j = Some 0)).
    { intros i j v Hv. rewrite MasksFacts.pixel_binarize_half, Hv. simpl.
      destruct (Qle_bool v (1 # 2)) eqn:Hle.
      - apply Qle_bool_iff in Hle. split; [|done].
        intros Hlt. by apply Qlt_not_le in Hlt.
      - split; [done|]. intros Hle'. apply Qle_bool_iff in Hle'.
        by rewrite Hle' in Hle. }
    split; [done|]. split; [by rewrite Hs|]. split; [done|].
    split; [|split; [done|]].
    + intros i j Hnone. by rewrite MasksFacts.pixel_binarize_half, Hnone.
    + intros i j b Hb' [-> | ->]; by apply (Hpx i j _ Hb').
Qed.

(** A 500 x 500 file is cropped from (36, 36), and a 2 x 2 file, white on
    its diagonal, is resampled by the nearest-neighbour routine of the
    examples to 428 x 428 quadrants with the same diagonal. *)
Lemma read_gt_three_tier_witness :
  (∃ gt,
     Masks._read_gt (fun _ => Ok (Masks.Gray gt_500)) nearest_resize
       "gt_5.tif" = Ok gt ∧
     Masks.shape gt = (428%nat, 428%nat) ∧
     Masks.pixel gt 0 0 = Masks.pixel gt_500 36 36) ∧
  (∃ gt,
     Masks._read_gt (fun _ => Ok image_diag) nearest_resize "gt_5.tif"
     = Ok gt ∧
     Masks.shape gt = (428%nat, 428%nat) ∧
     Masks.pixel gt 0 0 = Some 1 ∧
     Masks.pixel gt 213 214 = Some 0 ∧
     Masks.pixel gt 214 213 = Some 0 ∧
     Masks.pixel gt 427 427 = Some 1 ∧
     Masks.pixel gt 428 0 = None).
Proof.
  split.
  - destruct (read_gt_three_tier (fun _ => Ok (Masks.Gray gt_500))
                nearest_resize "gt_5.tif" gt_500 500 500)
      as (_ & _ & Hcrop & _).
    + vm_compute. reflexivity.
    + unfold Masks.rectangular, gt_500. apply Forall_replicate.
      vm_compute. reflexivity.
    + vm_compute. reflexivity.
    + destruct (read_gt_three_tier (fun _ => Ok (Masks.Gray gt_500))
                  nearest_resize "gt_5.tif" gt_500 500 500)
        as (_ & Hshape & _).
      * vm_compute. reflexivity.
      * unfold Masks.rectangular, gt_500. apply Forall_replicate.
        vm_compute. reflexivity.
      * vm_compute. reflexivity.
      * destruct Hshape as (gt & Hgt & Hs & _ & Hpx); [lia|].
        exists gt. split; [done|]. split; [done|].
        apply (Hpx 0%nat 0%nat); lia.
  - destruct (read_gt_three_tier (fun _ => Ok image_diag) nearest_resize
                "gt_5.tif" [[1; 0]; [0; 1]] 2 2) as (_ & _ & _ & Hsmall).
    + vm_compute. reflexivity.
    + by apply (bool_decide_unpack _).
    + vm_compute. reflexivity.
    + destruct Hsmall as (gt & Hgt & _ & Hs & _ & Hnone & Hpx & _); [lia|].
      exists gt. split; [done|]. split; [apply Hs; reflexivity|].
      split; [|split; [|split; [|split]]].
      * apply (Hpx 0%nat 0%nat 1%Q); [reflexivity | done].
      * apply (Hpx 213%nat 214%nat 0%Q); [reflexivity | done].
      * apply (Hpx 214%nat 213%nat 0%Q); [reflexivity | done].
      * apply (Hpx 427%nat 427%nat 1%Q); [reflexivity | done].
      * apply Hnone. reflexivity.
Defined.

(** ** Facts about [Pixels] *)

Module PixelsFacts.

Import Masks MasksFacts Numpy Pixels.

Lemma elem_of_row_set {A} (p : A → bool) i j0 (r : list A) i' j :
  (i', j) ∈ row_set p i j0 r ↔
  i' = i ∧ ∃ k v, j = (j0 + k)%nat ∧ r !! k = Some v ∧ p v = true.
Proof.
  revert j0. induction r as [|x r IH]; intros j0; simpl.
  - rewrite elem_of_empty. split; [done|]. by intros (_ & k & v & _ & ? & _).
  - rewrite elem_of_union, IH. split.
    + intros [H | (-> & k & v & -> & Hk & Hv)].
      * destruct (p x) eqn:Hp; [|by apply elem_of_empty in H].
        apply elem_of_singleton in H. injection H as -> ->.
        split; [done|]. exists 0%nat, x. by rewrite Nat.add_0_r.
      * split; [done|]. exists (S k), v. split; [lia|done].
    + intros (-> & [|k] & v & -> & Hk & Hv); simpl in Hk.
      * injection Hk as ->. left. rewrite Hv, Nat.add_0_r.
        by apply elem_of_singleton.
      * right. split; [done|]. exists k, v. split; [lia|done].
Qed.

Lemma elem_of_set_from {A} (p : A → bool) i0 (a : list (list A)) i j :
  (i, j) ∈ set_from p i0 a ↔
  ∃ k v, i = (i0 + k)%nat ∧ pixel a k j = Some v ∧ p v = true.
Proof.
  revert i0. induction a as [|r a IH]; intros i0; simpl.
  - rewrite elem_of_empty. split; [done|]. by intros (k & v & _ & ? & _).
  - rewrite elem_of_union, IH, elem_of_row_set. split.
    + intros [(-> & k & v & -> & Hk & Hv) | (k & v & -> & Hk & Hv)].
      * exists 0%nat, v. by rewrite Nat.add_0_r.
      * exists (S k), v. split; [lia|done].
    + intros ([|k] & v & -> & Hk & Hv).
      * left. rewrite Nat.add_0_r. split; [done|].
        unfold pixel in Hk. simpl in Hk. by exists j, v.
      * right. exists k, v. split; [lia|done].
Qed.

Lemma elem_of_pixels {A} (p : A → bool) (a : list (list A)) i j :
  (i, j) ∈ pixels p a ↔ ∃ v, pixel a i j = Some v ∧ p v = true.
Proof.
  unfold pixels. rewrite elem_of_set_from. split.
  - intros (k & v & -> & H). by exists v.
  - intros (v & H). by exists i, v.
Qed.

Lemma size_row_set {A} (p : A → bool) i j0 (r : list A) :
  Z.of_nat (size (row_set p i j0 r))
  = foldr Z.add 0 ((fun v => Z.b2z (p v)) <$> r).
Proof.
  revert j0. induction r as [|x r IH]; intros j0; simpl; [done|].
  rewrite size_union.
  - rewrite Nat2Z.inj_add, IH.
    destruct (p x); [by rewrite size_singleton | by rewrite size_empty].
  - intros [i' j] H1 H2. apply elem_of_row_set in H2 as (_ & k & v & -> & _).
    destruct (p x); [|by apply elem_of_empty in H1].
    apply elem_of_singleton in H1. injection H1 as _ H1. lia.
Qed.

Lemma size_set_from {A} (p : A → bool) i0 (a : list (list A)) :
  Z.of_nat (size (set_from p i0 a))
  = sum (fmap (M:=list) (fmap (M:=list) (fun v => Z.b2z (p v))) a).
Proof.
  revert i0. induction a as [|r a IH]; intros i0; simpl; [done|].
  rewrite size_union.
  - by rewrite Nat2Z.inj_add, IH, size_row_set.
  - intros [i j] H1 H2. apply elem_of_row_set in H1 as [-> _].
    apply elem_of_set_from in H2 as (k & v & Hi & _). lia.
Qed.

Lemma count_pixels (a : list (list bool)) :
  count a = Z.of_nat (size (pixels id a)).
Proof. unfold count, pixels. by rewrite size_set_from. Qed.

Lemma sum_binary (a : list (list Z)) :
  binary a → sum a = Z.of_nat (size (fg a)).
Proof.
  intros Hb. unfold fg, pixels. rewrite size_set_from. f_equal.
  symmetry. apply fmap_fixed.
  eapply Forall_impl; [exact Hb|]. intros r Hr. simpl.
  apply fmap_fixed.
  eapply Forall_impl; [exact Hr|]. by intros v [-> | ->].
Qed.

End PixelsFacts.

(** ** Facts about [Metrics] *)

Module MetricsFacts.

Import Masks MasksFacts Numpy Pixels PixelsFacts Metrics.

Lemma stretch_length {A} (n : nat) (l : list A) :
  length l = n → stretch n l = l.
Proof. intros <-. by destruct l as [|x [|y l]]. Qed.

Lemma broadcast_to_shape {A} (a : list (list A)) :
  rectangular a → broadcast_to a (shape a) = a.
Proof.
  intros Hrect. unfold broadcast_to.
  assert (Hrows : stretch (shape a).2 <$> a = a).
  { apply fmap_fixed. eapply Forall_impl; [exact Hrect|].
    intros r Hr. by apply stretch_length. }
  rewrite Hrows. by apply stretch_length.
Qed.

Lemma broadcast_dim_same (n : nat) : broadcast_dim n n = Some n.
Proof. unfold broadcast_dim. by rewrite decide_True. Qed.

Lemma pixel_zip_with {A B C} (f : A → B → C) a b i j :
  pixel (zip_with (zip_with f) a b) i j
  = x ← pixel a i j; y ← pixel b i j; Some (f x y).
Proof.
  unfold pixel. rewrite lookup_zip_with.
  destruct (a !! i) as [r|]; simpl; [|done].
  destruct (b !! i) as [s|]; simpl.
  - by rewrite lookup_zip_with.
  - by destruct (r !! j).
Qed.

Lemma pixel_is_Some {A} (a : list (list A)) i j :
  rectangular a →
  is_Some (pixel a i j) ↔ (i < (shape a).1)%nat ∧ (j < (shape a).2)%nat.
Proof.
  intros Hrect. unfold rectangular in Hrect. rewrite Forall_forall in Hrect.
  unfold pixel. split.
  - intros [v Hv]. destruct (a !! i) as [r|] eqn:Hr; simpl in Hv; [|done].
    split; [by eapply lookup_lt_Some|].
    rewrite <- (Hrect r) by (by eapply list_elem_of_lookup_2).
    by eapply lookup_lt_Some.
  - intros [Hi Hj]. apply lookup_lt_is_Some in Hi as [r Hr]. rewrite Hr. simpl.
    apply lookup_lt_is_Some.
    rewrite (Hrect r) by (by eapply list_elem_of_lookup_2). done.
Qed.

Section SameShape.
Variables a b : list (list Z).
Hypothesis Hrect_a : rectangular a.
Hypothesis Hrect_b : rectangular b.
Hypothesis Hshape : shape a = shape b.

Lemma ufunc2_same_shape {C} (f : Z → Z → C) :
  ufunc2 f a b = Ok (zip_with (zip_with f) a b).
Proof.
  unfold ufunc2, broadcast_shapes. rewrite <- Hshape.
  rewrite !broadcast_dim_same. simpl.
  change (length a, _) with (shape a).
  rewrite broadcast_to_shape by done.
  by rewrite Hshape, broadcast_to_shape.
Qed.

Lemma pixel_both_defined i j :
  is_Some (pixel a i j) ↔ is_Some (pixel b i j).
Proof. rewrite !pixel_is_Some by done. by rewrite Hshape. Qed.

Lemma pixels_and :
  pixels id (zip_with (zip_with (fun x y => nonzero x && nonzero y)) a b)
  = fg a ∩ fg b.
Proof.
  apply set_eq. intros [i j]. unfold fg.
  rewrite elem_of_intersection, !elem_of_pixels, pixel_zip_with.
  destruct (pixel a i j) as [x|], (pixel b i j) as [y|]; simpl;
    try (split; [by intros (? & ? & ?) | by intros [(? & ? & ?) (? & ? & ?)]]).
  split.
  - intros (v & [= <-] & Hv). apply andb_prop in Hv as [Hx Hy].
    split; eauto.
  - intros [(? & [= <-] & Hx) (? & [= <-] & Hy)]. eexists. split; [done|].
    simpl. by rewrite Hx, Hy.
Qed.

Lemma pixels_or :
  pixels id (zip_with (zip_with (fun x y => nonzero x || nonzero y)) a b)
  = fg a ∪ fg b.
Proof.
  apply set_eq. intros [i j]. unfold fg.
  rewrite elem_of_union, !elem_of_pixels, pixel_zip_with.
  pose proof (pixel_both_defined i j) as Hdef.
  destruct (pixel a i j) as [x|], (pixel b i j) as [y|]; simpl.
  - split.
    + intros (v & [= <-] & Hv). apply orb_prop in Hv as [Hx | Hy]; eauto.
    + intros [(? & [= <-] & Hx) | (? & [= <-] & Hy)];
        eexists; (split; [done|]); simpl; rewrite ?Hx, ?Hy;
        by rewrite ?orb_true_r.
  - destruct Hdef as [Hdef _]. by destruct Hdef.
  - destruct Hdef as [_ Hdef]. by destruct Hdef.
  - split; [by intros (? & ? & ?) | by intros [(? & ? & ?) | (? & ? & ?)]].
Qed.

(** The two metrics as ratios of set sizes. *)
Lemma jaccard_index_sets :
  jaccard_index a b =
  Ok (if Z.of_nat (size (fg a ∪ fg b)) =? 0 then 1%Q
      else (inject_Z (Z.of_nat (size (fg a ∩ fg b)))
            / inject_Z (Z.of_nat (size (fg a ∪ fg b))))%Q).
Proof.
  unfold jaccard_index, logical_and, logical_or.
  rewrite !ufunc2_same_shape, !bind_Ok.
  by rewrite !count_pixels, pixels_and, pixels_or.
Qed.

Lemma dice_coefficient_sets :
  binary a → binary b →
  dice_coefficient a b =
  Ok (if Z.of_nat (size (fg a)) + Z.of_nat (size (fg b)) =? 0 then 1%Q
      else (inject_Z (2 * Z.of_nat (size (fg a ∩ fg b)))
            / inject_Z (Z.of_nat (size (fg a)) + Z.of_nat (size (fg b))))%Q).
Proof.
  intros Ha Hb. unfold dice_coefficient, logical_and.
  rewrite !ufunc2_same_shape, !bind_Ok.
  by rewrite !count_pixels, pixels_and, !sum_binary.
Qed.
End SameShape.

(** Sizes of the foregrounds of two masks. *)
Lemma size_union_inter (A B : gset (nat * nat)) :
  (size (A ∪ B) + size (A ∩ B) = size A + size B)%nat.
Proof.
  assert (HU : A ∪ B = A ∪ (B ∖ A)).
  { apply set_eq. intros x. rewrite !elem_of_union, elem_of_difference.
    destruct (decide (x ∈ A)); naive_solver. }
  assert (HB : B = (A ∩ B) ∪ (B ∖ A)).
  { apply set_eq. intros x.
    rewrite elem_of_union, elem_of_intersection, elem_of_difference.
    destruct (decide (x ∈ A)); naive_solver. }
  rewrite HU, (size_union A (B ∖ A)) by set_solver.
  pose proof (size_union (A ∩ B) (B ∖ A)) as HS.
  rewrite <- HB in HS. rewrite HS by set_solver. lia.
Qed.

Lemma size_inter_le_union (A B : gset (nat * nat)) :
  (size (A ∩ B) ≤ size (A ∪ B))%nat.
Proof. apply subseteq_size. set_solver. Qed.

End MetricsFacts.

(** ** Arithmetic of the ratios *)

Module Ratio.

Lemma size_zero_iff (X : gset (nat * nat)) :
  Z.of_nat (size X) = 0 ↔ X = ∅.
Proof.
  rewrite <- (leibniz_equiv_iff X ∅), <- size_empty_iff. lia.
Qed.

Lemma div_pos (x y : Z) :
  0 < y → (inject_Z x / inject_Z y == x # Z.to_pos y)%Q.
Proof.
  intros Hy. destruct y as [|p|p]; try lia. simpl.
  symmetry. apply Qmake_Qdiv.
Qed.

Lemma div_zero (y : Z) : (inject_Z 0 / inject_Z y == 0)%Q.
Proof. unfold Qdiv. apply Qmult_0_l. Qed.

Lemma div_same (y : Z) : y ≠ 0 → (inject_Z y / inject_Z y == 1)%Q.
Proof.
  intros Hy. apply Qmult_inv_r. unfold Qeq. simpl. lia.
Qed.

Lemma le_cross (x y : Z) (p q : positive) :
  x * Zpos q ≤ y * Zpos p → (x # p <= y # q)%Q.
Proof. intros H. unfold Qle. simpl. exact H. Qed.

End Ratio.

(** C1. For two binary masks of the same shape: when both are empty the
    Jaccard index and the Dice coefficient are exactly 1; when both are
    non-empty and disjoint both are 0; when the masks are identical and
    non-empty both are 1; and whenever one of them is non-empty the
    Jaccard index is |a ∩ b| / |a ∪ b| and the Dice coefficient is
    2 |a ∩ b| / (|a| + |b|). *)
Theorem jaccard_dice_cases (a b : list (list Z)) :
  Masks.rectangular a → Masks.rectangular b →
  Masks.shape a = Masks.shape b →
  Numpy.binary a → Numpy.binary b →
  let A := Pixels.fg a in
  let B := Pixels.fg b in
  (A ∪ B = ∅ →
     Metrics.jaccard_index a b = Ok 1%Q ∧
     Metrics.dice_coefficient a b = Ok 1%Q) ∧
  (A ≠ ∅ → B ≠ ∅ → A ∩ B = ∅ →
     ∃ j d, Metrics.jaccard_index a b = Ok j ∧
            Metrics.dice_coefficient a b = Ok d ∧ (j == 0)%Q ∧ (d == 0)%Q) ∧
  (a = b → A ≠ ∅ →
     ∃ j d, Metrics.jaccard_index a b = Ok j ∧
            Metrics.dice_coefficient a b = Ok d ∧ (j == 1)%Q ∧ (d == 1)%Q) ∧
  (A ∪ B ≠ ∅ →
     Metrics.jaccard_index a b
     = Ok (inject_Z (Z.of_nat (size (A ∩ B)))
           / inject_Z (Z.of_nat (size (A ∪ B))))%Q ∧
     Metrics.dice_coefficient a b
     = Ok (inject_Z (2 * Z.of_nat (size (A ∩ B)))
           / inject_Z (Z.of_nat (size A) + Z.of_nat (size B)))%Q).
Proof.
  intros Hra Hrb Hs Hba Hbb A B.
  pose proof (MetricsFacts.jaccard_index_sets a b Hra Hrb Hs) as HJ.
  pose proof (MetricsFacts.dice_coefficient_sets a b Hra Hrb Hs Hba Hbb) as HD.
  fold A B in HJ, HD.
  pose proof (MetricsFacts.size_union_inter A B) as Hsum.
  pose proof (MetricsFacts.size_inter_le_union A B) as Hle.
  assert (Hgeneral : A ∪ B ≠ ∅ →
     Metrics.jaccard_index a b
     = Ok (inject_Z (Z.of_nat (size (A ∩ B)))
           / inject_Z (Z.of_nat (size (A ∪ B))))%Q ∧
     Metrics.dice_coefficient a b
     = Ok (inject_Z (2 * Z.of_nat (size (A ∩ B)))
           / inject_Z (Z.of_nat (size A) + Z.of_nat (size B)))%Q).
  { intros Hne. rewrite <- Ratio.size_zero_iff in Hne.
    rewrite HJ, HD. split.
    - by rewrite (proj2 (Z.eqb_neq _ _) Hne).
    - assert (Hd : Z.of_nat (size A) + Z.of_nat (size B) ≠ 0) by lia.
      by rewrite (proj2 (Z.eqb_neq _ _) Hd). }
  split; [|split; [|split]]; [| | |done].
  - intros He. rewrite HJ, HD.
    assert (HA : A = ∅) by set_solver. assert (HB : B = ∅) by set_solver.
    rewrite He, HA, HB, size_empty. by simpl.
  - intros HA HB Hdisj.
    destruct Hgeneral as [HJ' HD']; [set_solver|].
    eexists _, _. split; [exact HJ'|]. split; [exact HD'|].
    rewrite Hdisj, size_empty. simpl. split; apply Ratio.div_zero.
  - intros Hab HA. assert (HBA : B = A) by (subst A B; by rewrite Hab).
    destruct Hgeneral as [HJ' HD']; [set_solver|].
    eexists _, _. split; [exact HJ'|]. split; [exact HD'|].
    rewrite <- Ratio.size_zero_iff in HA. rewrite HBA.
    replace (A ∩ A) with A by set_solver. replace (A ∪ A) with A by set_solver.
    replace (2 * Z.of_nat (size A)) with (Z.of_nat (size A) + Z.of_nat (size A))
      by lia.
    split; apply Ratio.div_same; lia.
Qed.

Lemma mask_diag_wf : Masks.rectangular mask_diag ∧ Numpy.binary mask_diag.
Proof. split; by apply (bool_decide_unpack _). Defined.

Lemma mask_top_wf : Masks.rectangular mask_top ∧ Numpy.binary mask_top.
Proof. split; by apply (bool_decide_unpack _). Defined.

Lemma jaccard_dice_cases_witness :
  Metrics.jaccard_index mask_diag mask_top
  = Ok (inject_Z (Z.of_nat (size (Pixels.fg mask_diag ∩ Pixels.fg mask_top)))
        / inject_Z (Z.of_nat (size (Pixels.fg mask_diag ∪ Pixels.fg mask_top))))%Q.
Proof.
  destruct (jaccard_dice_cases mask_diag mask_top) as (_ & _ & _ & H).
  - apply mask_diag_wf.
  - apply mask_top_wf.
  - reflexivity.
  - apply mask_diag_wf.
  - apply mask_top_wf.
  - apply H. by vm_compute.
Defined.

(** C10. For two binary masks of the same shape the Jaccard index is at
    most the Dice coefficient, and both lie between 0 and 1. *)
Theorem jaccard_le_dice (a b : list (list Z)) :
  Masks.rectangular a → Masks.rectangular b →
  Masks.shape a = Masks.shape b →
  Numpy.binary a → Numpy.binary b →
  ∃ j d,
    Metrics.jaccard_index a b = Ok j ∧
    Metrics.dice_coefficient a b = Ok d ∧
    (j <= d)%Q ∧ (0 <= j)%Q ∧ (j <= 1)%Q ∧ (0 <= d)%Q ∧ (d <= 1)%Q.
Proof.
  intros Hra Hrb Hs Hba Hbb.
  rewrite (MetricsFacts.jaccard_index_sets a b Hra Hrb Hs).
  rewrite (MetricsFacts.dice_coefficient_sets a b Hra Hrb Hs Hba Hbb).
  pose proof (MetricsFacts.size_union_inter (Pixels.fg a) (Pixels.fg b)) as Hsum.
  pose proof (MetricsFacts.size_inter_le_union (Pixels.fg a) (Pixels.fg b)) as Hle.
  set (i := Z.of_nat (size (Pixels.fg a ∩ Pixels.fg b))) in *.
  set (u := Z.of_nat (size (Pixels.fg a ∪ Pixels.fg b))) in *.
  set (s := Z.of_nat (size (Pixels.fg a)) + Z.of_nat (size (Pixels.fg b))) in *.
  assert (Hi : 0 ≤ i) by (subst i; lia).
  assert (Hiu : i ≤ u) by (subst i u; lia).
  assert (Hsu : s = u + i) by (subst s u i; lia).
  eexists _, _. split; [reflexivity|]. split; [reflexivity|].
  destruct (Z.eqb_spec u 0) as [Hu0 | Hu0].
  - assert (Hs0 : (s =? 0) = true) by (apply Z.eqb_eq; lia).
    rewrite Hs0. by repeat split.
  - assert (Hs0 : (s =? 0) = false) by (apply Z.eqb_neq; lia).
    rewrite Hs0.
    assert (Hu : 0 < u) by lia. assert (Hs' : 0 < s) by lia.
    rewrite (Ratio.div_pos i u Hu), (Ratio.div_pos (2 * i) s Hs').
    pose proof (Z2Pos.id u Hu) as Eu. pose proof (Z2Pos.id s Hs') as Es.
    repeat split; unfold Qle; simpl; rewrite ?Eu, ?Es; nia.
Qed.

Lemma jaccard_le_dice_witness :
  ∃ j d,
    Metrics.jaccard_index mask_diag mask_top = Ok j ∧
    Metrics.dice_coefficient mask_diag mask_top = Ok d ∧
    (j <= d)%Q ∧ (0 <= j)%Q ∧ (j <= 1)%Q ∧ (0 <= d)%Q ∧ (d <= 1)%Q.
Proof.
  apply (jaccard_le_dice mask_diag mask_top).
  - apply mask_diag_wf.
  - apply mask_top_wf.
  - reflexivity.
  - apply mask_diag_wf.
  - apply mask_top_wf.
Defined.

(** ** Facts about [Float64] *)

Module Float64Facts.

Import Float64.

(** A float64 has a value exactly when it is finite. *)
Lemma value_is_finite (x : float) :
  is_finite x = true ↔ is_Some (value x).
Proof.
  unfold value, Prim2SF, is_finite.
  destruct (is_nan x) eqn:Hn; simpl.
  { split; [done | by intros [? ?]]. }
  destruct (is_zero x) eqn:Hz.
  - assert (Hi : is_infinity x = false).
    { unfold is_zero, is_infinity in *.
      rewrite FloatAxioms.eqb_spec in Hz |- *. rewrite FloatAxioms.abs_spec.
      change (Prim2SF PrimFloat.zero) with (S754_zero false) in Hz.
      change (Prim2SF PrimFloat.infinity) with (S754_infinity false).
      destruct (Prim2SF x) as [s| s| |s m e]; try done.
      by destruct s. }
    rewrite Hi. by split.
  - destruct (is_infinity x).
    + split; [done | by intros [? ?]].
    + split; [intros _|done].
      destruct (Z.frexp x) as [r e].
      destruct (shr_fexp _ _ _ _ _) as [shr e'].
      by destruct (shr_m shr).
Qed.

End Float64Facts.

(** ** Facts about [Tracks] *)

Module TracksFacts.

Import Tracks.

Lemma round_nearest (q : Q) :
  (inject_Z (round q) - (1 # 2) <= q)%Q ∧ (q <= inject_Z (round q) + (1 # 2))%Q.
Proof.
  unfold round.
  pose proof (Qfloor_le q) as Hlo. pose proof (Qlt_floor q) as Hhi.
  rewrite inject_Z_plus in Hhi. change (inject_Z 1) with 1%Q in Hhi.
  assert (Hup : (inject_Z (Qfloor q + 1) == inject_Z (Qfloor q) + 1)%Q).
  { by rewrite inject_Z_plus. }
  destruct (q - inject_Z (Qfloor q) ?= 1 # 2)%Q eqn:Hc.
  - apply Qeq_alt in Hc. destruct (Z.even (Qfloor q)).
    + split; lra.
    + rewrite Hup. split; lra.
  - apply Qlt_alt in Hc. split; lra.
  - apply Qgt_alt in Hc. rewrite Hup. split; lra.
Qed.

Lemma Qabs_half (d : Q) :
  ((Qabs d <= 1 # 2)%Q ↔ (- (1 # 2) <= d)%Q ∧ (d <= 1 # 2)%Q) ∧
  ((Qabs d == 1 # 2)%Q ↔ (d == 1 # 2)%Q ∨ (d == - (1 # 2))%Q).
Proof.
  split; [apply Qabs_Qle_condition|].
  apply (Qabs_case d (fun a => (a == 1 # 2)%Q ↔ (d == 1 # 2)%Q ∨ (d == - (1 # 2))%Q)).
  - intros Hd. split; [by left|]. intros [H | H]; [done | lra].
  - intros Hd. split; [intros H; right; lra|]. intros [H | H]; lra.
Qed.

(** [round] gives the nearest integer, the even one at a tie. *)
Lemma round_nearest_even (q : Q) : nearest_even q (round q).
Proof.
  destruct (round_nearest q) as [Hlo Hhi]. split.
  - apply Qabs_half. split; lra.
  - intros Htie. apply Qabs_half in Htie. revert Hlo Hhi Htie. unfold round.
    pose proof (Qfloor_le q) as Hfl. pose proof (Qlt_floor q) as Hfh.
    rewrite inject_Z_plus in Hfh. change (inject_Z 1) with 1%Q in Hfh.
    assert (Hup : (inject_Z (Qfloor q + 1) == inject_Z (Qfloor q) + 1)%Q).
    { by rewrite inject_Z_plus. }
    destruct (q - inject_Z (Qfloor q) ?= 1 # 2)%Q eqn:Hc.
    + destruct (Z.even (Qfloor q)) eqn:He; [done|]. intros _ _ _.
      rewrite Z.even_add, He. done.
    + apply Qlt_alt in Hc. intros _ _ [H | H]; lra.
    + apply Qgt_alt in Hc. rewrite Hup. intros _ _ [H | H]; lra.
Qed.

(** There is one such integer. *)
Lemma nearest_even_unique (q : Q) (n m : Z) :
  nearest_even q n → nearest_even q m → n = m.
Proof.
  intros [Hn Hne] [Hm Hme].
  apply Qabs_half in Hn as [Hn1 Hn2]. apply Qabs_half in Hm as [Hm1 Hm2].
  assert (Hd : (- 1 <= inject_Z (n - m) <= 1)%Q).
  { unfold Z.sub. rewrite inject_Z_plus, inject_Z_opp. split; lra. }
  destruct Hd as [Hd1 Hd2].
  change (- 1)%Q with (inject_Z (- 1)) in Hd1.
  change 1%Q with (inject_Z 1) in Hd2.
  rewrite <- Zle_Qle in Hd1, Hd2.
  destruct (decide (n = m)) as [|Hne']; [done|]. exfalso.
  assert (Hcase : n = m + 1 ∨ m = n + 1) by lia.
  destruct Hcase as [-> | ->].
  - rewrite inject_Z_plus in *. change (inject_Z 1) with 1%Q in *.
    assert (He1 : Z.even (m + 1) = true).
    { apply Hne, Qabs_half. right. lra. }
    assert (He2 : Z.even m = true).
    { apply Hme, Qabs_half. left. lra. }
    rewrite Z.even_add, He2 in He1. done.
  - rewrite inject_Z_plus in *. change (inject_Z 1) with 1%Q in *.
    assert (He1 : Z.even (n + 1) = true).
    { apply Hme, Qabs_half. right. lra. }
    assert (He2 : Z.even n = true).
    { apply Hne, Qabs_half. left. lra. }
    rewrite Z.even_add, He2 in He1. done.
Qed.

Lemma astype_int_fits (n : Z) :
  int64_min ≤ n ≤ int64_max → astype_int n = n.
Proof.
  intros [Hlo Hhi]. unfold astype_int.
  apply Z.leb_le in Hlo, Hhi. by rewrite Hlo, Hhi.
Qed.

(** A conversion that raises raises the error of the non-finite values,
    and it does so exactly on them. *)
Lemma to_px_Ok (scale v : float) :
  is_finite (PrimFloat.div v scale) = true →
  ∃ q, Float64.value (PrimFloat.div v scale) = Some q ∧
       to_px scale v = Ok (astype_int (round q)).
Proof.
  intros [q Hq]%Float64Facts.value_is_finite. exists q. split; [done|].
  unfold to_px. by rewrite Hq.
Qed.

Lemma to_px_Raise (scale v : float) :
  is_finite (PrimFloat.div v scale) = false →
  to_px scale v = Raise cannot_convert.
Proof.
  intros Hf. unfold to_px.
  destruct (Float64.value _) as [q|] eqn:Hq; [|done].
  assert (is_finite (PrimFloat.div v scale) = true)
    by (by apply Float64Facts.value_is_finite).
  congruence.
Qed.

Lemma to_px_inv (scale v : float) (n : Z) :
  to_px scale v = Ok n →
  is_finite (PrimFloat.div v scale) = true ∧
  ∃ q, Float64.value (PrimFloat.div v scale) = Some q ∧
       n = astype_int (round q).
Proof.
  destruct (is_finite (PrimFloat.div v scale)) eqn:Hf.
  - destruct (to_px_Ok _ _ Hf) as (q & Hq & ->). intros [= <-].
    split; [done|]. by exists q.
  - by rewrite (to_px_Raise _ _ Hf).
Qed.

Lemma mapM_to_px_Raise {A} (scale : float) (f : A → float) (l : list A) e :
  mapM (fun r => to_px scale (f r)) l = Raise e → e = cannot_convert.
Proof.
  intros (x & _ & Hx)%mapM_Raise. unfold to_px in Hx.
  destruct (Float64.value _); [done|]. by injection Hx.
Qed.

Lemma mapM_to_px_Ok {A} (scale : float) (f : A → float) (l : list A) :
  (∃ ns, mapM (fun r => to_px scale (f r)) l = Ok ns) ↔
  ∀ r, r ∈ l → is_finite (PrimFloat.div (f r) scale) = true.
Proof.
  split.
  - intros [ns Hns] r Hr.
    destruct (is_finite (PrimFloat.div (f r) scale)) eqn:Hf; [done|].
    apply list_elem_of_lookup_1 in Hr as [k Hk].
    pose proof (mapM_Ok_length _ _ _ Hns) as Hlen.
    destruct (ns !! k) as [n|] eqn:Hn.
    + destruct (mapM_Ok_lookup _ _ _ Hns k n Hn) as (r' & Hk' & Hr').
      rewrite Hk in Hk'. injection Hk' as <-.
      by rewrite (to_px_Raise _ _ Hf) in Hr'.
    + apply lookup_ge_None in Hn. apply lookup_lt_Some in Hk. lia.
  - intros Hall.
    destruct (mapM (fun r => to_px scale (f r)) l) as [ns|e] eqn:Hm;
      [by exists ns|].
    apply mapM_Raise in Hm as (x & Hx & Hr).
    destruct (to_px_Ok scale (f x) (Hall x Hx)) as (q & _ & Hok).
    congruence.
Qed.

End TracksFacts.

(** C9, as amended. The pixel coordinates are computed in float64 and
    stored as 64-bit integers. Loading a track file succeeds exactly when
    every quotient x_nm / scale and y_nm / scale, divided in float64, is
    finite, and raises the error of the integer conversion otherwise (a
    missing coordinate, a zero scale). Every loaded row keeps the columns
    of the file, and its x_px is the integer nearest to the float64
    quotient x_nm / scale (the even one when the quotient lies halfway
    between two integers) whenever that integer fits a signed 64-bit
    integer; likewise for y_px. The scale is the nanometres-per-pixel
    constant, 117 by default. *)
Theorem load_tracks_pixels
    (read_csv : string → result (list Tracks.csv_row))
    (nm_per_pixel : float) (path : string) (rows : list Tracks.csv_row) :
  read_csv path = Ok rows →
  Tracks.default_nm_per_pixel = 117%float ∧
  ((∃ tracks, Tracks._load_tracks read_csv nm_per_pixel path = Ok tracks) ↔
   ∀ r, r ∈ rows →
     is_finite (PrimFloat.div (Tracks.csv_X_nm r) nm_per_pixel) = true ∧
     is_finite (PrimFloat.div (Tracks.csv_Y_nm r) nm_per_pixel) = true) ∧
  (∀ e, Tracks._load_tracks read_csv nm_per_pixel path = Raise e →
     e = ValueError "Cannot convert non-finite values (NA or inf) to integer") ∧
  ∀ tracks, Tracks._load_tracks read_csv nm_per_pixel path = Ok tracks →
    length tracks = length rows ∧
    ∀ k r, rows !! k = Some r →
      ∃ t qx qy nx ny, tracks !! k = Some t ∧
        Tracks.Frame t = Tracks.csv_Frame r ∧
        Tracks.Track_ID t = Tracks.csv_Track_ID r ∧
        Tracks.X_nm t = Tracks.csv_X_nm r ∧
        Tracks.Y_nm t = Tracks.csv_Y_nm r ∧
        Float64.value (PrimFloat.div (Tracks.csv_X_nm r) nm_per_pixel)
        = Some qx ∧
        Float64.value (PrimFloat.div (Tracks.csv_Y_nm r) nm_per_pixel)
        = Some qy ∧
        Tracks.nearest_even qx nx ∧ Tracks.nearest_even qy ny ∧
        (- 2 ^ 63 ≤ nx < 2 ^ 63 → Tracks.X_px t = nx) ∧
        (- 2 ^ 63 ≤ ny < 2 ^ 63 → Tracks.Y_px t = ny).
Proof.
  intros Hread. split; [done|].
  unfold Tracks._load_tracks. rewrite Hread, bind_Ok.
  set (fx := fun r => Tracks.to_px nm_per_pixel (Tracks.csv_X_nm r)).
  set (fy := fun r => Tracks.to_px nm_per_pixel (Tracks.csv_Y_nm r)).
  pose proof (TracksFacts.mapM_to_px_Ok nm_per_pixel Tracks.csv_X_nm rows)
    as HX. fold fx in HX.
  pose proof (TracksFacts.mapM_to_px_Ok nm_per_pixel Tracks.csv_Y_nm rows)
    as HY. fold fy in HY.
  split; [|split].
  - split.
    + intros [tracks Hload] r Hr.
      destruct (mapM fx rows) as [xs|e] eqn:Hxs; [|done].
      rewrite bind_Ok in Hload.
      destruct (mapM fy rows) as [ys|e] eqn:Hys; [|done].
      split; [apply HX | apply HY]; eauto.
    + intros Hall.
      destruct (proj2 HX) as [xs ->]; [intros r Hr; by apply Hall|].
      destruct (proj2 HY) as [ys ->]; [intros r Hr; by apply Hall|].
      rewrite !bind_Ok. eauto.
  - intros e.
    destruct (mapM fx rows) as [xs|e1] eqn:Hxs.
    2:{ rewrite bind_Raise. intros [= <-].
        by apply TracksFacts.mapM_to_px_Raise in Hxs. }
    rewrite bind_Ok.
    destruct (mapM fy rows) as [ys|e2] eqn:Hys; [done|].
    rewrite bind_Raise. intros [= <-].
    by apply TracksFacts.mapM_to_px_Raise in Hys.
  - intros tracks.
    destruct (mapM fx rows) as [xs|e1] eqn:Hxs; [|done]. rewrite bind_Ok.
    destruct (mapM fy rows) as [ys|e2] eqn:Hys; [|done]. rewrite bind_Ok.
    intros [= <-].
    pose proof (mapM_Ok_length _ _ _ Hxs) as Hlx.
    pose proof (mapM_Ok_length _ _ _ Hys) as Hly.
    split.
    { rewrite length_zip_with, length_zip. lia. }
    intros k r Hk.
    destruct (xs !! k) as [x|] eqn:Hx.
    2:{ apply lookup_ge_None in Hx. apply lookup_lt_Some in Hk. lia. }
    destruct (ys !! k) as [y|] eqn:Hy.
    2:{ apply lookup_ge_None in Hy. apply lookup_lt_Some in Hk. lia. }
    destruct (mapM_Ok_lookup _ _ _ Hxs k x Hx) as (r1 & Hk1 & Hr1).
    destruct (mapM_Ok_lookup _ _ _ Hys k y Hy) as (r2 & Hk2 & Hr2).
    rewrite Hk in Hk1, Hk2. injection Hk1 as <-. injection Hk2 as <-.
    apply TracksFacts.to_px_inv in Hr1 as (_ & qx & Hqx & ->).
    apply TracksFacts.to_px_inv in Hr2 as (_ & qy & Hqy & ->).
    eexists _, qx, qy, (Tracks.round qx), (Tracks.round qy).
    rewrite lookup_zip_with, Hk. simpl.
    erewrite (proj2 (lookup_zip_with_Some pair _ _ k _)).
    2:{ eexists _, _. split; [reflexivity|]. by rewrite Hx, Hy. }
    simpl. split; [reflexivity|]. simpl.
    do 6 (split; [done|]).
    split; [apply TracksFacts.round_nearest_even|].
    split; [apply TracksFacts.round_nearest_even|].
    split; intros Hfit; apply TracksFacts.astype_int_fits;
      unfold Tracks.int64_min, Tracks.int64_max; lia.
Qed.

(** A row at (1170 nm, 292.5 nm) is at the pixel (10, 2) for the scale
    117: the quotient 2.5 goes to the even integer. For the scale 106.7
    the float64 quotient of 373.45 is 3.5, which goes to 4. A missing
    coordinate raises. *)
Lemma load_tracks_pixels_witness :
  (∃ t,
     Tracks._load_tracks (fun _ => Ok one_track_csv) 117 "tracks_5.csv"
     = Ok [t] ∧
     Tracks.X_px t = 10 ∧ Tracks.Y_px t = 2 ∧
     Qred <$> Float64.value (PrimFloat.div 292.5 117) = Some (5 # 2)%Q ∧
     Tracks.nearest_even (5 # 2) 2) ∧
  (∃ t,
     Tracks._load_tracks (fun _ => Ok halfway_csv) 106.7 "tracks_5.csv"
     = Ok [t] ∧
     Tracks.X_px t = 4 ∧ Tracks.Y_px t = 4 ∧
     Qred <$> Float64.value (PrimFloat.div 373.45 106.7) = Some (7 # 2)%Q ∧
     Tracks.nearest_even (7 # 2) 4) ∧
  Tracks._load_tracks (fun _ => Ok missing_track_csv) 117 "tracks_5.csv"
  = Raise (ValueError "Cannot convert non-finite values (NA or inf) to integer").
Proof.
  split; [|split].
  - destruct (load_tracks_pixels (fun _ => Ok one_track_csv) 117
                "tracks_5.csv" one_track_csv eq_refl)
      as (_ & Hok & _ & Hrows).
    destruct (proj2 Hok) as [tracks Hload].
    { intros r Hr. apply list_elem_of_singleton in Hr as ->. by vm_compute. }
    destruct (Hrows tracks Hload) as [Hlen _].
    destruct tracks as [|t [|]]; try discriminate Hlen.
    exists t. split; [done|].
    vm_compute in Hload. injection Hload as <-.
    do 3 (split; [by vm_compute|]). split; [by vm_compute | done].
  - destruct (load_tracks_pixels (fun _ => Ok halfway_csv) 106.7
                "tracks_5.csv" halfway_csv eq_refl)
      as (_ & Hok & _ & Hrows).
    destruct (proj2 Hok) as [tracks Hload].
    { intros r Hr. apply list_elem_of_singleton in Hr as ->. by vm_compute. }
    destruct (Hrows tracks Hload) as [Hlen _].
    destruct tracks as [|t [|]]; try discriminate Hlen.
    exists t. split; [done|].
    vm_compute in Hload. injection Hload as <-.
    do 3 (split; [by vm_compute|]). split; [by vm_compute | done].
  - destruct (load_tracks_pixels (fun _ => Ok missing_track_csv) 117
                "tracks_5.csv" missing_track_csv eq_refl)
      as (_ & _ & Hraise & _).
    destruct (Tracks._load_tracks _ _ _) as [tracks|e] eqn:Hload;
      [vm_compute in Hload; discriminate Hload|].
    by rewrite (Hraise e eq_refl).
Defined.

(** C9, as stated, fails for a coordinate whose quotient does not fit a
    64-bit integer: the row is loaded, and its x_px is the least 64-bit
    integer, far from the quotient 2e21 / 117. *)
Lemma load_tracks_pixels_counterexample :
  ∃ t,
    Tracks._load_tracks (fun _ => Ok far_track_csv) 117 "tracks_5.csv"
    = Ok [t] ∧
    Float64.value (PrimFloat.div (Tracks.X_nm t) 117)
    = Some 17094017094017093632%Q ∧
    Tracks.X_px t = - 9223372036854775808 ∧
    ¬ Tracks.nearest_even 17094017094017093632 (Tracks.X_px t).
Proof.
  eexists. split; [by vm_compute|]. split; [by vm_compute|].
  split; [by vm_compute|].
  intros [H _]. by vm_compute in H.
Qed.

(** ** Facts about [Evaluation] *)

Module EvaluationFacts.

Import Masks MasksFacts Numpy Pixels PixelsFacts Metrics MetricsFacts Tracks TracksFacts Evaluation.

Lemma elem_of_where_eq1 (mask : list (list Z)) (y x : nat) :
  (y, x) ∈ where_eq1 mask ↔ pixel mask y x = Some 1.
Proof.
  unfold where_eq1, pixel. rewrite list_elem_of_join. split.
  - intros (l & Hin & Hl).
    apply elem_of_lookup_imap in Hl as (i & r & -> & Hr).
    apply list_elem_of_omap in Hin as (o & Ho & Hid). simpl in Hid. subst o.
    apply elem_of_lookup_imap in Ho as (j & v & Hv & Hj).
    case_decide as H1; [|done]. injection Hv as -> ->.
    rewrite Hr. simpl. by rewrite Hj, H1.
  - intros H. destruct (mask !! y) as [r|] eqn:Hr; simpl in H; [|done].
    eexists. split; [|apply elem_of_lookup_imap; by exists y, r].
    apply list_elem_of_omap. exists (Some (y, x)). split; [|done].
    apply elem_of_lookup_imap. exists x, 1. by rewrite decide_True.
Qed.

Lemma elem_of_coords (mask : list (list Z)) (x y : Z) :
  (x, y) ∈ coords mask ↔ foreground mask x y.
Proof.
  unfold coords, foreground. rewrite elem_of_list_to_set, list_elem_of_fmap.
  split.
  - intros ([i j] & [= -> ->] & H). apply elem_of_where_eq1 in H.
    rewrite !Nat2Z.id. repeat split; try lia. done.
  - intros (Hx & Hy & H). exists (Z.to_nat y, Z.to_nat x).
    rewrite !Z2Nat.id by done. split; [done|]. by apply elem_of_where_eq1.
Qed.




End EvaluationFacts.

(** ** Facts about [IdText] *)

Module IdTextFacts.

Import Filenames IdText.













End IdTextFacts.




(** ** Rows of the mask metrics *)

Module MaskRowsFacts.

Import Masks MasksFacts Numpy Pixels PixelsFacts Metrics MetricsFacts Evaluation EvaluationFacts MaskRows.

Lemma uint64_minus_int_le (nep50 : bool) (x y : Z) :
  y ≤ x → uint64_minus_int nep50 x y = x - y.
Proof.
  intros Hy. unfold uint64_minus_int.
  destruct (Z.ltb_spec x y); [lia|]. by rewrite andb_false_r.
Qed.

Lemma mask_metrics_row_sets (nep50 : bool) (e : entry) :
  same_shape e →
  mask_metrics_row nep50 e = Ok (row_of_sets e).
Proof.
  intros (Hra & Hrb & Hs & Hba & Hbb). unfold mask_metrics_row.
  rewrite (jaccard_index_sets _ _ Hra Hrb Hs), bind_Ok.
  rewrite (dice_coefficient_sets _ _ Hra Hrb Hs Hba Hbb), bind_Ok.
  unfold logical_and. rewrite (ufunc2_same_shape _ _ Hra Hrb Hs), bind_Ok.
  rewrite count_pixels, pixels_and, (sum_binary _ Hba).
  rewrite uint64_minus_int_le; [done|].
  apply inj_le, subseteq_size. set_solver.
Qed.

End MaskRowsFacts.

(** C8, as amended. Each aligned set is judged on its own: whatever the
    other sets of the run look like, the row of a set whose predicted mask
    has the shape of its ground-truth mask reports, as its false-positive
    count, the number of predicted foreground pixels minus the number of
    pixels in the intersection of the two masks, with no clamp, and that
    count is never negative. The rows are in the order of the sets, and
    the table is produced whenever every set is of that kind. *)
Theorem false_positives_same_shape (nep50 : bool) (data : list Evaluation.entry) :
  (Forall MaskRows.same_shape data →
   ∃ rows, Evaluation.evaluate_mask_metrics nep50 data = Ok rows) ∧
  ∀ rows, Evaluation.evaluate_mask_metrics nep50 data = Ok rows →
    length rows = length data ∧
    ∀ k e, data !! k = Some e → MaskRows.same_shape e →
      let A := Pixels.fg (Evaluation.roi_mask e) in
      let B := Pixels.fg (Evaluation.gt_mask e) in
      ∃ row, rows !! k = Some row ∧
        Evaluation.mm_Intersection row = Z.of_nat (size (A ∩ B)) ∧
        Evaluation.mm_False_Positives row
        = Z.of_nat (size A) - Z.of_nat (size (A ∩ B)) ∧
        Evaluation.mm_False_Positives row
        = Numpy.sum (Evaluation.roi_mask e) - Evaluation.mm_Intersection row ∧
        0 ≤ Evaluation.mm_False_Positives row.
Proof.
  split.
  { intros Hdata. exists (MaskRows.row_of_sets <$> data).
    unfold Evaluation.evaluate_mask_metrics. apply mapM_Ok_fmap.
    eapply Forall_impl; [exact Hdata|]. intros e He.
    by apply MaskRowsFacts.mask_metrics_row_sets. }
  intros rows Hrows. unfold Evaluation.evaluate_mask_metrics in Hrows.
  pose proof (mapM_Ok_length _ _ _ Hrows) as Hlen. split; [done|].
  intros k e Hk He A B.
  destruct (rows !! k) as [row|] eqn:Hrow.
  2: { apply lookup_ge_None in Hrow. apply lookup_lt_Some in Hk. lia. }
  destruct (mapM_Ok_lookup _ _ _ Hrows k row Hrow) as (e' & Hk' & Hrow').
  rewrite Hk in Hk'. injection Hk' as <-.
  rewrite (MaskRowsFacts.mask_metrics_row_sets nep50 e He) in Hrow'.
  injection Hrow' as <-. exists (MaskRows.row_of_sets e).
  split; [done|]. simpl. fold A B.
  destruct He as (_ & _ & _ & Hba & _).
  rewrite (PixelsFacts.sum_binary _ Hba). fold A.
  repeat split; try done.
  assert (size (A ∩ B) ≤ size A)%nat by (apply subseteq_size; set_solver).
  lia.
Qed.

(** The set of two 2 x 2 masks keeps its counts, one shared pixel and one
    false positive, beside a set whose single predicted pixel is broadcast
    over its ground truth. *)
Lemma false_positives_same_shape_witness :
  ∃ row other,
    Evaluation.evaluate_mask_metrics false [entry_2x2; entry_1x1]
    = Ok [row; other] ∧
    Evaluation.mm_Intersection row = 1 ∧
    Evaluation.mm_False_Positives row = 1 ∧
    0 ≤ Evaluation.mm_False_Positives row.
Proof.
  destruct (Evaluation.evaluate_mask_metrics false [entry_2x2; entry_1x1])
    as [rows|err] eqn:Hrows; [|vm_compute in Hrows; discriminate Hrows].
  destruct (false_positives_same_shape false [entry_2x2; entry_1x1])
    as [_ Hrow].
  destruct (Hrow rows Hrows) as [Hlen Hk].
  destruct (Hk 0%nat entry_2x2 eq_refl) as (row & Hr & Hi & Hfp & _ & Hpos);
    [by apply (bool_decide_unpack _)|].
  destruct rows as [|row' [|other [|]]]; try discriminate Hlen.
  injection Hr as ->. exists row, other. split; [done|].
  split; [by rewrite Hi|]. split; [by rewrite Hfp | done].
Defined.

(** C8, as stated, fails on a predicted mask of another shape: the
    intersection count of the row is 183184 for a single predicted pixel,
    and the false-positive count is negative (or, with NumPy 2, wrapped
    around to a number that is not their difference). *)
Lemma false_positives_broadcast_counterexample :
  (∃ row,
      Evaluation.evaluate_mask_metrics false [entry_1x1] = Ok [row] ∧
      Numpy.sum (Evaluation.roi_mask entry_1x1) = 1 ∧
      Evaluation.mm_Intersection row = 183184 ∧
      Evaluation.mm_False_Positives row = -183183 ∧
      ¬ (0 ≤ Evaluation.mm_False_Positives row)) ∧
  (∃ row,
      Evaluation.evaluate_mask_metrics true [entry_1x1] = Ok [row] ∧
      Numpy.sum (Evaluation.roi_mask entry_1x1) = 1 ∧
      Evaluation.mm_Intersection row = 183184 ∧
      ¬ (Evaluation.mm_False_Positives row
         = Numpy.sum (Evaluation.roi_mask entry_1x1)
           - Evaluation.mm_Intersection row)).
Proof.
  split; eexists; (split; [by vm_compute|]); by vm_compute.
Qed.

(** ** Where an exception of the constructor comes from *)

Module Loading.

Import Masks MasksFacts Tracks TracksFacts Evaluation EvaluationFacts Listing Evaluator.

Section IO.
Variable imread : string → result image.
Variable resize : list (list Z) → nat * nat → resize_args → list (list Q).
Variable read_csv : string → result (list csv_row).

Lemma read_mask_Raise path e :
  _read_mask imread path = Raise e → imread path = Raise e.
Proof.
  unfold _read_mask. destruct (imread path).
  - rewrite bind_Ok. intros H. discriminate H.
  - rewrite bind_Raise. by intros [= ->].
Qed.

Lemma read_gt_Raise path e :
  _read_gt imread resize path = Raise e → imread path = Raise e.
Proof.
  unfold _read_gt. destruct (_read_mask imread path) as [mask|e'] eqn:Hm.
  - rewrite bind_Ok. case_decide; [done|].
    destruct (shape mask) as [h w].
    by destruct ((canonical <=? h)%nat && (canonical <=? w)%nat).
  - rewrite bind_Raise. intros [= ->]. by apply read_mask_Raise.
Qed.

Lemma mapM_to_px_other {A} scale (f : A → float) (l : list A) e :
  mapM (fun r => to_px scale (f r)) l = Raise e → e ≠ no_aligned.
Proof. by intros ->%mapM_to_px_Raise. Qed.

Lemma load_tracks_Raise scale path e :
  _load_tracks read_csv scale path = Raise e →
  read_csv path = Raise e ∨ e ≠ no_aligned.
Proof.
  unfold _load_tracks. destruct (read_csv path) as [df|e'].
  2:{ rewrite bind_Raise. intros [= ->]. by left. }
  rewrite bind_Ok. intros H. right.
  destruct (mapM (fun r => to_px scale (csv_X_nm r)) df) as [xs|e1] eqn:Hx.
  2:{ rewrite bind_Raise in H. injection H as <-.
      by eapply mapM_to_px_other. }
  rewrite bind_Ok in H.
  destruct (mapM (fun r => to_px scale (csv_Y_nm r)) df) as [ys|e2] eqn:Hy.
  - rewrite bind_Ok in H. discriminate H.
  - rewrite bind_Raise in H. injection H as <-.
    by eapply mapM_to_px_other.
Qed.

Hypothesis imread_other : ∀ p, imread p ≠ Raise no_aligned.
Hypothesis read_csv_other : ∀ p, read_csv p ≠ Raise no_aligned.

Lemma load_set_other roi_dir gt_dir track_dir scale t :
  load_set imread resize read_csv roi_dir gt_dir track_dir scale t
  ≠ Raise no_aligned.
Proof.
  destruct t as [[[num roi_name] gt_name] track_name]. unfold load_set.
  destruct (_read_mask imread _) as [roi|e] eqn:Hroi.
  2:{ rewrite bind_Raise. intros [= ->].
      by apply read_mask_Raise, imread_other in Hroi. }
  rewrite bind_Ok.
  destruct (_read_gt imread resize _) as [gt|e] eqn:Hgt.
  2:{ rewrite bind_Raise. intros [= ->].
      by apply read_gt_Raise, imread_other in Hgt. }
  rewrite bind_Ok.
  destruct (_load_tracks read_csv scale _) as [df|e] eqn:Hdf; [done|].
  rewrite bind_Raise. intros [= ->].
  apply load_tracks_Raise in Hdf as [Hdf | Hdf]; [|done].
  by apply read_csv_other in Hdf.
Qed.
End IO.

End Loading.

(** C7. Once the three directories are listed, construction raises its
    own error exactly when the aligned list is empty: with no aligned
    triplet it raises and returns no evaluator, and with at least one it
    goes on to load the aligned sets, so that an evaluator that is
    returned holds as many loaded sets as there are triplets, never
    none. The file readers raise their own errors, not this one. *)
Theorem init_raises_iff_no_triplet
    (listdir : string → result (list string))
    (imread : string → result Masks.image)
    (resize : list (list Z) → nat * nat → Masks.resize_args → list (list Q))
    (read_csv : string → result (list Tracks.csv_row))
    (roi_dir gt_dir track_dir : string) (nm_per_pixel : option float)
    (r g t : list string) :
  Listing._list_images listdir roi_dir = Ok r →
  Listing._list_images listdir gt_dir = Ok g →
  Listing._list_tracks listdir track_dir = Ok t →
  (∀ p, imread p ≠ Raise Evaluator.no_aligned) →
  (∀ p, read_csv p ≠ Raise Evaluator.no_aligned) →
  let aligned := (Align._align_files r g t).1 in
  let res :=
    (Evaluator.__init__ listdir imread resize read_csv
       roi_dir gt_dir track_dir nm_per_pixel).2 in
  (res = Raise Evaluator.no_aligned ↔ aligned = []) ∧
  (aligned ≠ [] →
     res = (data ← mapM (Evaluator.load_set imread resize read_csv
                           roi_dir gt_dir track_dir
                           (default Tracks.default_nm_per_pixel nm_per_pixel))
                     aligned;
            mret {| Evaluator.roi_dir := roi_dir; Evaluator.gt_dir := gt_dir;
                    Evaluator.track_dir := track_dir;
                    Evaluator.nm_per_pixel :=
                      default Tracks.default_nm_per_pixel nm_per_pixel;
                    Evaluator.roi_files := r; Evaluator.gt_files := g;
                    Evaluator.track_files := t;
                    Evaluator.file_triplets := aligned;
                    Evaluator.data := data |})) ∧
  (∀ ev, res = Ok ev →
     Evaluator.file_triplets ev = aligned ∧
     length (Evaluator.data ev) = length aligned ∧
     Evaluator.data ev ≠ []).
Proof.
  intros Hr Hg Ht Him Hcsv aligned res.
  subst res aligned. unfold Evaluator.__init__. rewrite Hr, Hg, Ht.
  destruct (Align._align_files r g t) as [triplets out]. simpl fst.
  destruct triplets as [|t0 ts]; [by repeat split|].
  set (nm := default Tracks.default_nm_per_pixel nm_per_pixel).
  set (load := Evaluator.load_set imread resize read_csv
                 roi_dir gt_dir track_dir nm).
  destruct (mapM load (t0 :: ts)) as [data|e] eqn:Hload.
  - rewrite bind_Ok. simpl snd. split; [|split].
    + split; intros H; discriminate H.
    + done.
    + intros ev [= <-]. simpl. apply mapM_Ok_length in Hload.
      split; [done|]. split; [done|]. by destruct data.
  - rewrite bind_Raise. simpl snd. split; [|split].
    + split; [|intros H; discriminate H].
      intros [= ->]. apply mapM_Raise in Hload as (x & _ & Hx).
      by apply Loading.load_set_other in Hx.
    + done.
    + intros ev H. discriminate H.
Qed.

Lemma init_raises_iff_no_triplet_witness :
  ∃ ev,
    (Evaluator.__init__ listdir_one (fun _ => Ok (Masks.Gray [[255]]))
       (fun _ _ _ => replicate 428 (replicate 428 1%Q))
       (fun _ => Ok one_track_csv) "roi" "gt" "tracks" None).2 = Ok ev ∧
    length (Evaluator.data ev) = 1%nat.
Proof.
  destruct (init_raises_iff_no_triplet listdir_one
              (fun _ => Ok (Masks.Gray [[255]]))
              (fun _ _ _ => replicate 428 (replicate 428 1%Q))
              (fun _ => Ok one_track_csv) "roi" "gt" "tracks" None
              ["roi_5.png"] ["gt_5.tif"] ["tracks_5.csv"])
    as (_ & Hload & Hev).
  - by vm_compute.
  - by vm_compute.
  - by vm_compute.
  - intros p H. discriminate H.
  - intros p H. discriminate H.
  - eexists. split; [by vm_compute|]. reflexivity.
Defined.

Module FrameFacts.

Import Frames.

Lemma find_column_names (f : string → Series) (names : list string) n :
  (∀ m, name (f m) = m) →
  find_column (f <$> names) n = if decide (n ∈ names) then Some (f n) else None.
Proof.
  intros Hf. induction names as [|m names IH].
  - destruct (decide (n ∈ [])) as [H | H]; [by apply elem_of_nil in H | done].
  - rewrite fmap_cons. cbn [find_column]. rewrite Hf, IH.
    destruct (decide (m = n)) as [-> | Hne].
    + destruct (decide (n ∈ n :: names)) as [H | H]; [done|].
      destruct H. apply list_elem_of_here.
    + destruct (decide (n ∈ names)) as [Hin | Hin],
        (decide (n ∈ m :: names)) as [H | H]; try done.
      * destruct H. by apply list_elem_of_further.
      * apply elem_of_cons in H as [-> | H]; done.
Qed.

Lemma find_column_elem (cs : list Series) (c : Series) :
  NoDup (name <$> cs) → c ∈ cs → find_column cs (name c) = Some c.
Proof.
  induction cs as [|d cs IH]; intros Hnd Hin; simpl in *.
  - by apply elem_of_nil in Hin.
  - apply NoDup_cons in Hnd as [Hd Hnd].
    apply elem_of_cons in Hin as [-> | Hin].
    + by rewrite decide_True.
    + rewrite decide_False; [by apply IH|].
      intros Heq. apply Hd. rewrite Heq. by apply list_elem_of_fmap_2.
Qed.

Lemma find_column_None (cs : list Series) n :
  n ∉ name <$> cs → find_column cs n = None.
Proof.
  induction cs as [|d cs IH]; intros Hn; simpl in *; [done|].
  rewrite not_elem_of_cons in Hn. destruct Hn as [Hne Hn].
  rewrite decide_False by done. by apply IH.
Qed.

Lemma find_column_filter (P : Series → Prop) `{!∀ c, Decision (P c)}
    (cs : list Series) (c : Series) :
  NoDup (name <$> cs) → c ∈ cs →
  find_column (filter P cs) (name c) = if decide (P c) then Some c else None.
Proof.
  induction cs as [|d cs IH]; intros Hnd Hin; simpl in *.
  - by apply elem_of_nil in Hin.
  - apply NoDup_cons in Hnd as [Hd Hnd].
    apply elem_of_cons in Hin as [-> | Hin].
    + rewrite filter_cons. destruct (decide (P d)) as [HP | HP]; simpl.
      * by rewrite decide_True.
      * apply find_column_None. intros Hin. apply Hd.
        apply list_elem_of_fmap in Hin as (c' & -> & Hc').
        apply list_elem_of_filter in Hc' as [_ Hc'].
        by apply list_elem_of_fmap_2.
    + assert (Hne : name d ≠ name c).
      { intros Heq. apply Hd. rewrite Heq. by apply list_elem_of_fmap_2. }
      rewrite filter_cons. destruct (decide (P d)); simpl.
      * rewrite decide_False by done. by apply IH.
      * by apply IH.
Qed.

Lemma dict_get_fmap (g : Series → cell) (cs : list Series) n :
  dict_get ((fun c => (name c, g c)) <$> cs) n = g <$> find_column cs n.
Proof.
  induction cs as [|c cs IH]; simpl; [done|].
  by destruct (decide (name c = n)).
Qed.

Lemma dict_get_set (d : list (string * cell)) k v k' :
  dict_get (dict_set d k v) k' = if decide (k = k') then Some v else dict_get d k'.
Proof.
  induction d as [|[k0 v0] d IH]; simpl.
  - done.
  - destruct (decide (k0 = k)) as [-> | Hne]; simpl.
    + by destruct (decide (k = k')).
    + rewrite IH. destruct (decide (k0 = k')) as [-> | Hne'];
        [by rewrite decide_False|done].
Qed.

Lemma keys_dict_set (d : list (string * cell)) k v :
  (dict_set d k v).*1 = if decide (k ∈ d.*1) then d.*1 else d.*1 ++ [k].
Proof.
  induction d as [|[k0 v0] d IH].
  - destruct (decide (k ∈ [].*1)) as [H | H]; [by apply elem_of_nil in H | done].
  - cbn [dict_set]. rewrite !fmap_cons. cbn [fst].
    destruct (decide (k0 = k)) as [-> | Hne].
    + rewrite fmap_cons. cbn [fst].
      destruct (decide (k ∈ k :: d.*1)) as [H | H]; [done|].
      destruct H. apply list_elem_of_here.
    + rewrite fmap_cons, IH. cbn [fst].
      destruct (decide (k ∈ d.*1)) as [Hin | Hin],
        (decide (k ∈ k0 :: d.*1)) as [H | H]; try done.
      * destruct H. by apply list_elem_of_further.
      * apply elem_of_cons in H as [-> | H]; done.
Qed.

Lemma values_frame_of_dict (d : list (string * cell)) n :
  values_or_nan (frame_of_dict d) n = [default NaN (dict_get d n)].
Proof.
  unfold values_or_nan, column. simpl.
  induction d as [|[k v] d IH]; simpl; [done|].
  destruct (decide (k = n)); [done|]. exact IH.
Qed.

Lemma names_frame_of_dict (d : list (string * cell)) :
  name <$> columns (frame_of_dict d) = d.*1.
Proof.
  simpl. rewrite <- list_fmap_compose. apply list_fmap_ext.
  by intros i [k v] _.
Qed.

Lemma numbers_Num (xs : list float) :
  Forall (fun x => is_nan x = false) xs → numbers (Num <$> xs) = xs.
Proof.
  induction 1 as [|x xs Hx _ IH]; [done|].
  rewrite fmap_cons. unfold numbers in *. cbn [omap list_omap].
  by rewrite Hx, IH.
Qed.

(** Adding from left to right is one of the summations. *)
Lemma sum_ltr_sums (xs : list float) : sums_to xs (sum_ltr xs).
Proof.
  unfold sum_ltr.
  cut (∀ pre acc, sums_to pre acc →
         sums_to (pre ++ xs) (foldl PrimFloat.add acc xs)).
  { intros H. apply (H [] 0%float). constructor. }
  induction xs as [|x xs IH]; intros pre acc Hacc; simpl.
  - by rewrite app_nil_r.
  - change (x :: xs) with ([x] ++ xs). rewrite (assoc_L (++)). apply IH.
    eapply sums_add; [reflexivity | exact Hacc | constructor].
Qed.

(** The number of ones in a list. *)
Local Abbreviation ones xs :=
  (length (filter (fun x => PrimFloat.eqb x 1 = true) xs)).

(** However zeros and at most one 1 are added up, the sum is the number
    of ones. *)
Lemma sums_zeros_one (xs : list float) (s : float) :
  sums_to xs s →
  Forall (fun x => x = 0%float ∨ x = 1%float) xs →
  (ones xs = 0%nat → s = 0%float) ∧ (ones xs = 1%nat → s = 1%float).
Proof.
  induction 1 as [|x|xs ys zs s t Hperm _ IHs _ IHt]; intros Hall.
  - by split.
  - apply Forall_singleton in Hall as [-> | ->]; by split.
  - rewrite Hperm in Hall |- *. apply Forall_app in Hall as [Hxs Hys].
    rewrite filter_app, length_app.
    destruct (IHs Hxs) as [Hs0 Hs1], (IHt Hys) as [Ht0 Ht1].
    split; intros Hn.
    + rewrite Hs0, Ht0 by lia. reflexivity.
    + assert (Hcase : (ones xs = 1 ∧ ones ys = 0)%nat ∨
                      (ones xs = 0 ∧ ones ys = 1)%nat) by lia.
      destruct Hcase as [[H1 H0] | [H0 H1]].
      * rewrite Hs1, Ht0 by done. reflexivity.
      * rewrite Hs0, Ht1 by done. reflexivity.
Qed.

Lemma filter_not_elem_nil (L K : list string) :
  K ⊆ L → filter (fun n => n ∉ L) K = [].
Proof.
  induction K as [|k K IH]; intros Hsub; [done|].
  rewrite filter_cons. rewrite decide_False by (intros H; apply H, Hsub, list_elem_of_here).
  apply IH. intros x Hx. by apply Hsub, list_elem_of_further.
Qed.

Section Summary.
Variable fsum : list float → float.
Variable df : DataFrame.
Variable label : string.
Hypothesis Hwf : wf df.

Local Abbreviation names_df := (name <$> columns df).
Local Abbreviation out := (concat df (frame_of_dict (summary_dict fsum df label))).

Lemma summary_keys_numeric :
  (name <$> filter (fun c => dt c = number) (columns df)) ⊆ names_df.
Proof.
  intros n (c & -> & Hc)%list_elem_of_fmap.
  apply list_elem_of_filter in Hc as [_ Hc]. by apply list_elem_of_fmap_2.
Qed.

Lemma summary_new_names :
  filter (fun n => n ∉ names_df)
    (name <$> columns (frame_of_dict (summary_dict fsum df label)))
  = if decide ("File Number" ∈ names_df) then [] else ["File Number"].
Proof.
  rewrite names_frame_of_dict. unfold summary_dict. rewrite keys_dict_set.
  rewrite <- list_fmap_compose.
  change (fst ∘ (fun c : Series => (name c, mean fsum (values c)))) with name.
  pose proof summary_keys_numeric as Hsub.
  set (keys := name <$> filter (fun c => dt c = number) (columns df)) in *.
  destruct (decide ("File Number" ∈ keys)) as [Hk | Hk].
  - rewrite decide_True by (by apply Hsub).
    by apply filter_not_elem_nil.
  - rewrite filter_app, filter_not_elem_nil by done. simpl.
    rewrite filter_cons, filter_nil.
    destruct (decide ("File Number" ∈ names_df)) as [Hn | Hn].
    + by rewrite decide_False by (by intros H).
    + by rewrite decide_True.
Qed.

Lemma summarize_names :
  name <$> columns out
  = names_df ++ if decide ("File Number" ∈ names_df) then []
                else ["File Number"].
Proof.
  unfold concat. cbn [columns]. rewrite <- list_fmap_compose.
  rewrite summary_new_names.
  rewrite <- (list_fmap_id (names_df ++ _)) at 2.
  by apply list_fmap_ext.
Qed.

Lemma summarize_values n :
  n ∈ name <$> columns out →
  ∃ c, column out n = Some c ∧ name c = n ∧
       values c = values_or_nan df n
                  ++ [default NaN (dict_get (summary_dict fsum df label) n)].
Proof.
  intros Hn. rewrite summarize_names in Hn.
  unfold column, concat. cbn [columns].
  rewrite summary_new_names, find_column_names by done.
  rewrite decide_True by done. eexists. split; [reflexivity|].
  split; [done|]. cbn [values]. by rewrite values_frame_of_dict.
Qed.

Lemma summary_get n :
  dict_get (summary_dict fsum df label) n
  = if decide ("File Number" = n) then Some (Str label)
    else c ← column df n;
         if decide (dt c = number) then Some (mean fsum (values c)) else None.
Proof.
  unfold summary_dict. rewrite dict_get_set. case_decide; [done|].
  rewrite dict_get_fmap. unfold column.
  destruct (find_column (columns df) n) as [c|] eqn:Hc.
  - assert (Hcn : name c = n ∧ c ∈ columns df).
    { clear -Hc. induction (columns df) as [|d cs IH]; simpl in Hc; [done|].
      case_decide.
      - injection Hc as ->. split; [done | apply list_elem_of_here].
      - destruct (IH Hc) as [? ?]. split; [done|].
        by apply list_elem_of_further. }
    destruct Hcn as [<- Hin]. destruct Hwf as [_ Hnd].
    rewrite (find_column_filter _ _ _ Hnd Hin). simpl.
    by case_decide.
  - rewrite find_column_None; [done|].
    intros (c & -> & Hin)%list_elem_of_fmap.
    apply list_elem_of_filter in Hin as [_ Hin].
    destruct Hwf as [_ Hnd].
    by rewrite (find_column_elem _ _ Hnd Hin) in Hc.
Qed.
End Summary.

End FrameFacts.

(** C6, as amended. Summarising a table of N rows gives a table of N + 1
    rows with the same columns (and the label column, when the table had
    none). Its first N rows are the rows of the input. In its last row
    the label column holds the marker string, "Overall Average" by
    default, and every other numeric column holds the float64 mean of the
    column: the numbers of the column, missing values skipped, are added
    in float64 by the library (two at a time, in its order and grouping)
    and the sum is divided in float64 by their number, which is N for a
    column without missing values; a column with no number gets a missing
    value. This is the arithmetic mean up to the rounding of float64, not
    the exact one. *)
Theorem summarize_appends_mean (fsum : list float → float)
    (df : Frames.DataFrame) (label : option string) :
  (∀ xs, Frames.sums_to xs (fsum xs)) →
  Frames.wf df →
  let out := Frames.summarize_results fsum df label in
  let N := Frames.nrows df in
  Frames.nrows out = (N + 1)%nat ∧
  Frames.name <$> Frames.columns out
  = (Frames.name <$> Frames.columns df)
    ++ (if decide ("File Number" ∈ Frames.name <$> Frames.columns df)
        then [] else ["File Number"]) ∧
  (∀ c, c ∈ Frames.columns out → length (Frames.values c) = (N + 1)%nat) ∧
  (∀ c k, c ∈ Frames.columns df → (k < N)%nat →
     Frames.at_ out k (Frames.name c) = Frames.at_ df k (Frames.name c)) ∧
  Frames.at_ out N "File Number"
  = Some (Frames.Str (default "Overall Average" label)) ∧
  (∀ c, c ∈ Frames.columns df → Frames.dt c = Frames.number →
     Frames.name c ≠ "File Number" →
     (∀ xs, Frames.values c = Frames.Num <$> xs →
        Forall (fun x => is_nan x = false) xs → (0 < N)%nat →
        ∃ s, Frames.sums_to xs s ∧ s = fsum xs ∧
          Frames.at_ out N (Frames.name c)
          = Some (Frames.Num (PrimFloat.div s (Float64.of_Z (Z.of_nat N))))) ∧
     (∀ xs, Frames.numbers (Frames.values c) = xs → xs ≠ [] →
        ∃ s, Frames.sums_to xs s ∧ s = fsum xs ∧
          Frames.at_ out N (Frames.name c)
          = Some (Frames.Num
                    (PrimFloat.div s (Float64.of_Z (Z.of_nat (length xs)))))) ∧
     (Frames.numbers (Frames.values c) = [] →
        Frames.at_ out N (Frames.name c) = Some Frames.NaN)).
Proof.
  intros Hsum Hwf out N. subst out. unfold Frames.summarize_results.
  set (l := default Frames.default_label label).
  set (out := Frames.concat df _).
  pose proof (FrameFacts.summarize_names fsum df l) as Hnames.
  fold out in Hnames.
  pose proof (FrameFacts.summarize_values fsum df l) as Hvalues.
  fold out in Hvalues.
  pose proof Hwf as [Hcols Hnd]. rewrite Forall_forall in Hcols.
  assert (Hdf : ∀ c, c ∈ Frames.columns df →
            Frames.column df (Frames.name c) = Some c ∧
            Frames.values_or_nan df (Frames.name c) = Frames.values c ∧
            length (Frames.values c) = N).
  { intros c Hc. pose proof (FrameFacts.find_column_elem _ _ Hnd Hc) as Hf.
    unfold Frames.values_or_nan, Frames.column. rewrite Hf.
    repeat split. by apply Hcols. }
  assert (Hin : ∀ c, c ∈ Frames.columns df →
            Frames.name c ∈ Frames.name <$> Frames.columns out).
  { intros c Hc. rewrite Hnames. apply elem_of_app. left.
    by apply list_elem_of_fmap_2. }
  assert (Hlen : ∀ n, length (Frames.values_or_nan df n) = N).
  { intros n. unfold Frames.values_or_nan, Frames.column.
    destruct (Frames.find_column (Frames.columns df) n) as [c|] eqn:Hc.
    - assert (c ∈ Frames.columns df).
      { clear -Hc. induction (Frames.columns df) as [|d cs IH];
          simpl in Hc; [done|]. case_decide.
        - injection Hc as ->. apply list_elem_of_here.
        - by apply list_elem_of_further, IH. }
      by apply Hcols.
    - apply length_replicate. }
  split; [simpl; lia|]. split; [done|]. split; [|split; [|split]].
  - intros c Hc. subst out. unfold Frames.concat in Hc. cbn [Frames.columns] in Hc.
    apply list_elem_of_fmap in Hc as (n & -> & _). cbn [Frames.values].
    rewrite length_app, Hlen, FrameFacts.values_frame_of_dict. done.
  - intros c k Hc Hk. unfold Frames.at_.
    destruct (Hvalues _ (Hin c Hc)) as (c' & -> & _ & Hv).
    destruct (Hdf c Hc) as (-> & Hv' & Hl). simpl.
    rewrite Hv, Hv'. apply lookup_app_l. lia.
  - unfold Frames.at_.
    destruct (Hvalues "File Number") as (c' & -> & _ & Hv).
    { rewrite Hnames. apply elem_of_app. case_decide; [by left|].
      right. apply list_elem_of_here. }
    simpl. rewrite Hv, (FrameFacts.summary_get fsum df l Hwf).
    rewrite decide_True by done. simpl.
    rewrite lookup_app_r by (rewrite Hlen; lia).
    rewrite Hlen, Nat.sub_diag. by destruct label.
  - intros c Hc Hnum Hname.
    assert (Hlast : Frames.at_ out N (Frames.name c)
                    = Some (Frames.mean fsum (Frames.values c))).
    { unfold Frames.at_.
      destruct (Hvalues _ (Hin c Hc)) as (c' & -> & _ & Hv).
      destruct (Hdf c Hc) as (Hcol & Hv' & Hl). simpl.
      rewrite Hv, (FrameFacts.summary_get fsum df l Hwf).
      rewrite decide_False by done. rewrite Hcol. simpl.
      rewrite decide_True by done. simpl.
      rewrite lookup_app_r by (rewrite Hlen; lia).
      by rewrite Hlen, Nat.sub_diag. }
    assert (Hgen : ∀ xs, Frames.numbers (Frames.values c) = xs → xs ≠ [] →
      ∃ s, Frames.sums_to xs s ∧ s = fsum xs ∧
        Frames.at_ out N (Frames.name c)
        = Some (Frames.Num
                  (PrimFloat.div s (Float64.of_Z (Z.of_nat (length xs)))))).
    { intros xs Hxs Hne. exists (fsum xs). split; [apply Hsum|].
      split; [done|]. rewrite Hlast. unfold Frames.mean. rewrite Hxs.
      by destruct xs. }
    split; [|split; [done|]].
    + intros xs Hxs Hnan HN.
      destruct (Hdf c Hc) as (_ & _ & Hl). rewrite Hxs in Hl.
      rewrite length_fmap in Hl.
      destruct (Hgen xs) as (s & Hs & Hfs & Hat).
      * rewrite Hxs. by apply FrameFacts.numbers_Num.
      * intros ->. simpl in Hl. lia.
      * exists s. by rewrite Hat, Hl.
    + intros Hnone. rewrite Hlast. unfold Frames.mean. by rewrite Hnone.
Qed.

(** The summary row of a table of two sets, added up from left to right:
    the mean of the intersections 1 and 4 is 2.5, and the mean of the
    Jaccard indices 1/3 and 1 is the float64 number 0.6666666666666666. *)
Lemma summarize_appends_mean_witness :
  let out :=
    Frames.summarize_results Frames.sum_ltr
      (Report.metrics_frame two_rows) None in
  Frames.nrows out = 3%nat ∧
  Frames.at_ out 2 "File Number" = Some (Frames.Str "Overall Average") ∧
  Frames.at_ out 2 "Intersection" = Some (Frames.Num 2.5) ∧
  Frames.at_ out 2 "Jaccard Index"
  = Some (Frames.Num 0.6666666666666666) ∧
  Frames.at_ out 0 "Jaccard Index" = Some (Frames.Num 0.3333333333333333) ∧
  Frames.at_ out 1 "Intersection" = Some (Frames.Num 4).
Proof.
  destruct (summarize_appends_mean Frames.sum_ltr
              (Report.metrics_frame two_rows) None)
    as (Hn & _ & _ & Hrows & Hlabel & Hmean).
  - apply FrameFacts.sum_ltr_sums.
  - by apply (bool_decide_unpack _).
  - split; [exact Hn|]. split; [exact Hlabel|].
    split; [|split; [|split]].
    + destruct (Hmean {| Frames.name := "Intersection";
                         Frames.dt := Frames.number;
                         Frames.values := [Frames.Num 1; Frames.Num 4] |})
        as [Hcol _].
      * simpl. do 5 apply list_elem_of_further. apply list_elem_of_here.
      * done.
      * done.
      * destruct (Hcol [1; 4]%float) as (s & _ & -> & Hat).
        -- done.
        -- by repeat constructor.
        -- simpl. lia.
        -- etrans; [exact Hat | by vm_compute].
    + destruct (Hmean {| Frames.name := "Jaccard Index";
                         Frames.dt := Frames.number;
                         Frames.values := [Frames.Num (PrimFloat.div 1 3);
                                           Frames.Num 1] |})
        as [Hcol _].
      * simpl. do 3 apply list_elem_of_further. apply list_elem_of_here.
      * done.
      * done.
      * destruct (Hcol [PrimFloat.div 1 3; 1]%float) as (s & _ & -> & Hat).
        -- done.
        -- by repeat constructor.
        -- simpl. lia.
        -- etrans; [exact Hat | by vm_compute].
    + etrans; [apply (Hrows {| Frames.name := "Jaccard Index";
                       Frames.dt := Frames.number;
                       Frames.values := [Frames.Num (PrimFloat.div 1 3);
                                         Frames.Num 1] |} 0%nat)
              | by vm_compute].
      * simpl. do 3 apply list_elem_of_further. apply list_elem_of_here.
      * simpl. lia.
    + etrans; [apply (Hrows {| Frames.name := "Intersection";
                       Frames.dt := Frames.number;
                       Frames.values := [Frames.Num 1; Frames.Num 4] |} 1%nat)
              | by vm_compute].
      * simpl. do 5 apply list_elem_of_further. apply list_elem_of_here.
      * simpl. lia.
Defined.

(** C6, as stated, fails on the column 0, 0, 1. In whatever order the
    library adds the column up, the cell of the summary row is the
    float64 number 0.3333333333333333, which is 6004799503160661 / 2^54
    and not the mean 1/3 of the column. *)
Lemma summarize_mean_rounded_counterexample :
  (∀ fsum : list float → float,
     (∀ xs, Frames.sums_to xs (fsum xs)) →
     let out := Frames.summarize_results fsum thirds_table None in
     Frames.nrows out = 4%nat ∧
     Frames.at_ out 3 "Score" = Some (Frames.Num 0.3333333333333333)) ∧
  Frames.at_ (Frames.summarize_results Frames.sum_ltr thirds_table None)
    3 "Score" = Some (Frames.Num 0.3333333333333333) ∧
  Float64.value 0.3333333333333333
  = Some (inject_Z 6004799503160661 * 2 ^ (-54))%Q ∧
  ¬ (inject_Z 6004799503160661 * 2 ^ (-54) == (0 + 0 + 1) / 3)%Q.
Proof.
  split; [|split; [by vm_compute|split; [by vm_compute|]]].
  - intros fsum Hsum out. split; [done|].
    assert (Hs : fsum [0; 0; 1]%float = 1%float).
    { apply (FrameFacts.sums_zeros_one _ _ (Hsum _)).
      - do 3 (constructor; [first [by left | by right]|]). constructor.
      - by vm_compute. }
    subst out. vm_compute. by rewrite Hs.
  - by intros H; vm_compute in H.
Qed.

(** ** The examples of identifier extraction and alignment *)

Lemma extract_number_last_run_witness :
  Filenames._extract_number "cell_007.tif" = 7 ∧
  ∃ pre run post,
    "cell_007.tif" = pre +:+ run +:+ post ∧ run ≠ EmptyString ∧
    Filenames.no_digit post = true ∧
    Filenames._extract_number "cell_007.tif" = Filenames.int run.
Proof.
  destruct extract_number_last_run as (Hall & H7 & _).
  split; [exact H7|].
  destruct (Hall "cell_007.tif")
    as [[Hn _] | (pre & run & post & Heq & _ & Hne & _ & Hp & Hv)].
  - discriminate Hn.
  - by exists pre, run, post.
Defined.

Lemma align_files_intersection_witness :
  let r := ["roi_1.png"; "roi_2.png"; "roi_3.png"] in
  let g := ["gt_2.tif"; "gt_3.tif"; "gt_4.tif"] in
  let t := ["tracks_2.csv"; "tracks_3.csv"] in
  (2 ∈ Align.triplet_num <$> (Align._align_files r g t).1) ∧
  (1 ∈ Align.reported (Align._align_files r g t).2) ∧
  (4 ∈ Align.reported (Align._align_files r g t).2).
Proof.
  intros r g t.
  destruct align_files_intersection as [Hall _].
  destruct (Hall r g t) as (Hin & _ & _ & Hrep).
  split; [|split].
  - apply Hin. by vm_compute.
  - apply Hrep. split; by vm_compute.
  - apply Hrep. split; by vm_compute.
Defined.

(** * Further properties of the evaluator *)

(** ** Identifiers *)

Module IdentifierFacts.

Import Filenames FilenamesFacts.

Lemma digit_value_range (c : ascii) :
  is_digit c = true → 0 ≤ digit_value c ≤ 9.
Proof.
  unfold is_digit, digit_value. intros H. apply andb_prop in H as [H1 H2].
  apply Nat.leb_le in H1, H2. lia.
Qed.

Lemma int_from_nonneg (s : string) (acc : Z) :
  all_digits s = true → 0 ≤ acc → 0 ≤ int_from acc s.
Proof.
  revert acc. induction s as [|c s IH]; intros acc Hs Hacc; simpl; [done|].
  apply andb_prop in Hs as [Hc Hs]. apply IH; [done|].
  pose proof (digit_value_range c Hc). lia.
Qed.

Lemma int_from_app (s1 s2 : string) (acc : Z) :
  int_from acc (s1 +:+ s2) = int_from (int_from acc s1) s2.
Proof. revert acc. induction s1 as [|c s1 IH]; intros acc; simpl; [done|]. apply IH. Qed.

Lemma int_from_zeros (zs : string) :
  string_forall (fun c => Ascii.eqb c "0") zs = true → int_from 0 zs = 0.
Proof.
  induction zs as [|c zs IH]; simpl; [done|]. intros H.
  apply andb_prop in H as [Hc Hzs]. apply Ascii.eqb_eq in Hc as ->. by apply IH.
Qed.

Lemma string_forall_app (p : ascii → bool) (s1 s2 : string) :
  string_forall p (s1 +:+ s2) = string_forall p s1 && string_forall p s2.
Proof.
  induction s1 as [|c s1 IH]; simpl; [done|]. by rewrite IH, andb_assoc.
Qed.

Lemma string_forall_impl (p q : ascii → bool) (s : string) :
  (∀ c, p c = true → q c = true) →
  string_forall p s = true → string_forall q s = true.
Proof.
  intros Hpq. induction s as [|c s IH]; simpl; [done|]. intros H.
  apply andb_prop in H as [Hc Hs]. by rewrite (Hpq c Hc), IH.
Qed.

Lemma no_digit_not_all (s : string) :
  s ≠ EmptyString → all_digits s = true → no_digit s = false.
Proof.
  destruct s as [|c s]; [done|]. intros _ H. unfold all_digits, no_digit in *.
  simpl in *. apply andb_prop in H as [Hc _]. by rewrite Hc.
Qed.

Lemma no_digit_split (pre run post : string) :
  run ≠ EmptyString → all_digits run = true →
  no_digit (pre +:+ run +:+ post) = false.
Proof.
  intros Hne Hr. unfold no_digit. rewrite !string_forall_app.
  fold (no_digit run). rewrite (no_digit_not_all run Hne Hr).
  by rewrite andb_false_r.
Qed.

End IdentifierFacts.

(** X1. The sentinel -1 is returned exactly for the file names without a
    digit; every file name with a digit gets an identifier that is not
    negative (a sign before the digits is not read). *)
Theorem extract_number_sentinel (filename : string) :
  (Filenames._extract_number filename = -1
   ↔ Filenames.no_digit filename = true) ∧
  (Filenames.no_digit filename = false →
   0 ≤ Filenames._extract_number filename).
Proof.
  destruct (FilenamesFacts.last_run_exists filename)
    as [Hn | (pre & run & post & -> & Hb & Hne & Hr & Hp)].
  - unfold Filenames._extract_number.
    rewrite FilenamesFacts.findall_none by done. rewrite Hn. by split.
  - rewrite (IdentifierFacts.no_digit_split pre run post Hne Hr).
    unfold Filenames._extract_number.
    rewrite FilenamesFacts.findall_last_run by done.
    pose proof (IdentifierFacts.int_from_nonneg run 0 Hr) as Hpos.
    unfold Filenames.int. split; [split; [lia | done] | lia].
Qed.

(** X2. Leading zeros do not change the identifier: zeros put in front of
    the last run of digits of a file name leave the extracted number as it
    was, so "cell_007.tif" and "cell_7.tif" carry the same identifier. *)
Theorem extract_number_leading_zeros (pre zeros run post : string) :
  Filenames.run_boundary pre →
  Filenames.string_forall (fun c => Ascii.eqb c "0") zeros = true →
  run ≠ EmptyString → Filenames.all_digits run = true →
  Filenames.no_digit post = true →
  Filenames._extract_number (pre +:+ (zeros +:+ run) +:+ post)
  = Filenames._extract_number (pre +:+ run +:+ post).
Proof.
  intros Hb Hz Hne Hr Hp. unfold Filenames._extract_number.
  assert (Hzd : Filenames.all_digits zeros = true).
  { eapply IdentifierFacts.string_forall_impl; [|exact Hz].
    intros c Hc. by apply Ascii.eqb_eq in Hc as ->. }
  rewrite (FilenamesFacts.findall_last_run pre (zeros +:+ run) post); try done.
  - rewrite FilenamesFacts.findall_last_run by done.
    unfold Filenames.int.
    by rewrite IdentifierFacts.int_from_app, IdentifierFacts.int_from_zeros.
  - destruct zeros; [done|]. by simpl.
  - unfold Filenames.all_digits in *.
    by rewrite IdentifierFacts.string_forall_app, Hzd, Hr.
Qed.

Lemma extract_number_leading_zeros_witness :
  Filenames._extract_number ("cell_" +:+ ("00" +:+ "7") +:+ ".tif")
  = Filenames._extract_number ("cell_" +:+ "7" +:+ ".tif").
Proof.
  apply (extract_number_leading_zeros "cell_" "00" "7" ".tif").
  - right. by exists "cell", "_"%char.
  - reflexivity.
  - done.
  - reflexivity.
  - reflexivity.
Defined.

(** ** Sorting of the directory listings *)

Module ListingFacts.

Import Filenames Listing.

Lemma insert_by_key_perm (f : string) (l : list string) :
  insert_by_key f l ≡ₚ f :: l.
Proof.
  induction l as [|g l IH]; simpl; [done|].
  destruct (_extract_number g <=? _extract_number f); [|done].
  rewrite IH. apply Permutation_swap.
Qed.

Lemma insert_by_key_sorted (f : string) (l : list string) :
  StronglySorted (fun a b => _extract_number a ≤ _extract_number b) l →
  StronglySorted (fun a b => _extract_number a ≤ _extract_number b)
    (insert_by_key f l).
Proof.
  induction 1 as [|g l Hl IH Hg]; simpl.
  - repeat constructor.
  - destruct (Z.leb_spec (_extract_number g) (_extract_number f)) as [Hle | Hlt].
    + constructor; [done|]. rewrite insert_by_key_perm. by constructor.
    + constructor; [by constructor|]. constructor; [lia|].
      eapply Forall_impl; [exact Hg|]. intros h Hh. simpl in *. lia.
Qed.

Lemma filter_none {A} (P : A → Prop) `{!∀ x, Decision (P x)} (l : list A) :
  Forall (fun x => ¬ P x) l → filter P l = [].
Proof.
  induction 1 as [|x l Hx Hl IH]; [done|].
  by rewrite filter_cons, decide_False.
Qed.

Lemma filter_singleton_key (f : string) (k : Z) :
  filter (fun g => _extract_number g = k) [f]
  = if decide (_extract_number f = k) then [f] else [].
Proof. rewrite filter_cons, filter_nil. by case_decide. Qed.

Lemma insert_by_key_filter (f : string) (l : list string) (k : Z) :
  StronglySorted (fun a b => _extract_number a ≤ _extract_number b) l →
  filter (fun g => _extract_number g = k) (insert_by_key f l)
  = filter (fun g => _extract_number g = k) l
    ++ filter (fun g => _extract_number g = k) [f].
Proof.
  induction 1 as [|g l Hl IH Hg]; [done|]. cbn [insert_by_key].
  destruct (Z.leb_spec (_extract_number g) (_extract_number f)) as [Hle | Hlt].
  - rewrite (filter_cons _ g (insert_by_key f l)), (filter_cons _ g l), IH.
    by case_decide.
  - rewrite (filter_cons _ f (g :: l)), filter_singleton_key.
    destruct (decide (_extract_number f = k)) as [Hk | Hk].
    + assert (Hnone : filter (fun h => _extract_number h = k) (g :: l) = []).
      { apply filter_none. constructor; [simpl; lia|].
        eapply Forall_impl; [exact Hg|]. intros h Hh. simpl in *. lia. }
      by rewrite Hnone.
    + by rewrite app_nil_r.
Qed.

Lemma sorted_from (acc files : list string) :
  StronglySorted (fun a b => _extract_number a ≤ _extract_number b) acc →
  let out := foldl (fun acc f => insert_by_key f acc) acc files in
  out ≡ₚ acc ++ files ∧
  StronglySorted (fun a b => _extract_number a ≤ _extract_number b) out ∧
  ∀ k, filter (fun g => _extract_number g = k) out
       = filter (fun g => _extract_number g = k) (acc ++ files).
Proof.
  revert acc. induction files as [|f files IH]; intros acc Hacc; simpl.
  - by rewrite app_nil_r.
  - destruct (IH (insert_by_key f acc)) as (Hp & Hs & Hf);
      [by apply insert_by_key_sorted|].
    split; [|split; [done|]].
    + rewrite Hp, insert_by_key_perm. simpl. apply Permutation_middle.
    + intros k. rewrite Hf, !filter_app, insert_by_key_filter by done.
      rewrite <- app_assoc. f_equal.
      by rewrite <- filter_app.
Qed.

Lemma sorted_by_number_spec (files : list string) :
  sorted_by_number files ≡ₚ files ∧
  StronglySorted (fun a b => _extract_number a ≤ _extract_number b)
    (sorted_by_number files) ∧
  ∀ k, filter (fun g => _extract_number g = k) (sorted_by_number files)
       = filter (fun g => _extract_number g = k) files.
Proof. apply (sorted_from [] files). constructor. Qed.

End ListingFacts.

(** X3. [_list_images] gives the names of the folder whose extension, in
    lower case, is one of the six image extensions, each as often as it is
    listed, in non-decreasing order of their numbers; names with the same
    number stay in the order of the listing. An error of the listing is
    passed on. *)
Theorem list_images_sorted (listdir : string → result (list string))
    (folder : string) :
  match listdir folder with
  | Ok names =>
      let images :=
        filter (fun f => Listing.lower (Listing.splitext_ext f) ∈ Listing.exts)
          names in
      ∃ files,
        Listing._list_images listdir folder = Ok files ∧
        files ≡ₚ images ∧
        StronglySorted
          (fun a b => Filenames._extract_number a ≤ Filenames._extract_number b)
          files ∧
        ∀ k, filter (fun g => Filenames._extract_number g = k) files
             = filter (fun g => Filenames._extract_number g = k) images
  | Raise e => Listing._list_images listdir folder = Raise e
  end.
Proof.
  unfold Listing._list_images. destruct (listdir folder) as [names|e]; [|done].
  rewrite bind_Ok. eexists. split; [reflexivity|].
  apply ListingFacts.sorted_by_number_spec.
Qed.

(** X4. [_list_tracks] gives the names of the folder that end in ".csv",
    whatever the case of their letters, in non-decreasing order of their
    numbers; names with the same number stay in the order of the listing.
    An error of the listing is passed on. *)
Theorem list_tracks_sorted (listdir : string → result (list string))
    (folder : string) :
  match listdir folder with
  | Ok names =>
      let tables :=
        filter (fun f => Listing.endswith (Listing.lower f) ".csv" = true)
          names in
      ∃ files,
        Listing._list_tracks listdir folder = Ok files ∧
        files ≡ₚ tables ∧
        StronglySorted
          (fun a b => Filenames._extract_number a ≤ Filenames._extract_number b)
          files ∧
        ∀ k, filter (fun g => Filenames._extract_number g = k) files
             = filter (fun g => Filenames._extract_number g = k) tables
  | Raise e => Listing._list_tracks listdir folder = Raise e
  end.
Proof.
  unfold Listing._list_tracks. destruct (listdir folder) as [names|e]; [|done].
  rewrite bind_Ok. eexists. split; [reflexivity|].
  apply ListingFacts.sorted_by_number_spec.
Qed.

(** ** Duplicate identifiers and the missing-sets notice *)

Module AlignMore.

Import Filenames Align AlignFacts.

Lemma last_cons_alt {A} (x : A) (l : list A) :
  last (x :: l) = match last l with Some y => Some y | None => Some x end.
Proof.
  destruct l as [|y l]; [done|]. change (last (x :: y :: l)) with (last (y :: l)).
  destruct (last (y :: l)) eqn:E; [done|]. by apply last_None in E.
Qed.

Lemma number_map_foldl_last (files : list string) (m : gmap Z string) (n : Z) :
  foldl (fun m f => <[_extract_number f := f]> m) m files !! n
  = match last (filter (fun f => _extract_number f = n) files) with
    | Some f => Some f
    | None => m !! n
    end.
Proof.
  revert m. induction files as [|f files IH]; intros m; [done|].
  cbn [foldl]. rewrite IH, filter_cons.
  destruct (decide (_extract_number f = n)) as [<- | Hne].
  - rewrite last_cons_alt.
    destruct (last (filter _ files)); [done|]. apply lookup_insert_eq.
  - destruct (last (filter _ files)); [done|]. by apply lookup_insert_ne.
Qed.

Lemma number_map_last (files : list string) (n : Z) :
  number_map files !! n
  = last (filter (fun f => _extract_number f = n) files).
Proof.
  unfold number_map. rewrite number_map_foldl_last, lookup_empty.
  by destruct (last _).
Qed.

Lemma sorted_nil_iff (s : gset Z) : sorted s = [] ↔ s = ∅.
Proof.
  unfold sorted. split.
  - intros H. apply set_eq. intros x.
    rewrite <- elem_of_elements, <- (merge_sort_Permutation Z.le), H.
    split; [by intros ?%elem_of_nil | by intros ?%elem_of_empty].
  - intros ->. by rewrite elements_empty.
Qed.

End AlignMore.

(** X5. When several files of one collection carry the same identifier,
    alignment uses the last of them: each name of an aligned triplet is the
    last file with that identifier in its collection, and after the sort of
    a directory listing this is the last such file of the listing. *)
Theorem align_last_file_wins (r g t : list string) :
  (∀ n a b c, (n, a, b, c) ∈ (Align._align_files r g t).1 →
     last (filter (fun f => Filenames._extract_number f = n) r) = Some a ∧
     last (filter (fun f => Filenames._extract_number f = n) g) = Some b ∧
     last (filter (fun f => Filenames._extract_number f = n) t) = Some c) ∧
  (∀ names n,
     Align.number_map (Listing.sorted_by_number names) !! n
     = last (filter (fun f => Filenames._extract_number f = n) names)).
Proof.
  split.
  - intros n a b c Hin. unfold Align._align_files in Hin. simpl in Hin.
    apply list_elem_of_fmap in Hin as (num & Heq & Hnum).
    injection Heq as -> -> -> ->.
    apply AlignFacts.elem_of_sorted in Hnum.
    rewrite !elem_of_intersection, !elem_of_dom in Hnum.
    destruct Hnum as [[[a Ha] [b Hb]] [c Hc]].
    rewrite (lookup_total_correct _ _ _ Ha), (lookup_total_correct _ _ _ Hb),
      (lookup_total_correct _ _ _ Hc).
    by rewrite <- !AlignMore.number_map_last.
  - intros names n. rewrite AlignMore.number_map_last.
    by destruct (ListingFacts.sorted_by_number_spec names) as (_ & _ & ->).
Qed.

(** X6. Alignment prints at most one notice, and none exactly when the
    three collections carry the same identifiers; the aligned list is empty
    exactly when no identifier is common to the three collections. *)
Theorem align_notice_and_empty (r g t : list string) :
  ((Align._align_files r g t).2 = []
   ↔ Align.ids r = Align.ids g ∧ Align.ids g = Align.ids t) ∧
  (length (Align._align_files r g t).2 ≤ 1)%nat ∧
  ((Align._align_files r g t).1 = []
   ↔ Align.ids r ∩ Align.ids g ∩ Align.ids t = ∅).
Proof.
  pose proof (AlignFacts.aligned_nums r g t) as Hnums.
  assert (Hempty : (Align._align_files r g t).1 = []
                   ↔ Align.ids r ∩ Align.ids g ∩ Align.ids t = ∅).
  { rewrite <- AlignMore.sorted_nil_iff, <- Hnums. split.
    - by intros ->.
    - apply fmap_nil_inv. }
  split; [|split; [|exact Hempty]]; clear Hempty;
    unfold Align._align_files in *; cbv zeta in *; simpl fst in *; simpl snd;
    rewrite Hnums, !AlignFacts.number_map_dom.
  all: set (U := Align.ids r ∪ Align.ids g ∪ Align.ids t).
  2: { case_decide; simpl; lia. }
  set (I := Align.ids r ∩ Align.ids g ∩ Align.ids t) in *.
  assert (Hm : U ∖ list_to_set (C:=gset Z) (Align.sorted I) = ∅
               ↔ Align.ids r = Align.ids g ∧ Align.ids g = Align.ids t).
  { assert (HI : list_to_set (C:=gset Z) (Align.sorted I) = I).
    { apply set_eq. intros k.
      by rewrite elem_of_list_to_set, AlignFacts.elem_of_sorted. }
    rewrite HI. subst U I. split.
    - intros H. split; apply set_eq; intros k; split; intros Hk;
        destruct (decide (k ∈ Align.ids r ∩ Align.ids g ∩ Align.ids t))
          as [Hin | Hout]; try set_solver.
    - intros [-> ->]. set_solver. }
  case_decide as He; [by rewrite <- Hm | split; [done|]].
  intros H. by apply Hm in H.
Qed.

(** ** Loaded masks *)

Module MaskMore.

Import Masks Numpy Pixels PixelsFacts MasksFacts.

Lemma shape_fmap {A B} (f : A → B) (a : list (list A)) :
  shape (fmap (M:=list) (fmap (M:=list) f) a) = shape a.
Proof.
  unfold shape. rewrite length_fmap. destruct a as [|r a]; [done|].
  simpl. by rewrite length_fmap.
Qed.

Lemma rectangular_fmap {A B} (f : A → B) (a : list (list A)) :
  rectangular a → rectangular (fmap (M:=list) (fmap (M:=list) f) a).
Proof.
  unfold rectangular. rewrite shape_fmap. intros H.
  apply Forall_fmap. eapply Forall_impl; [exact H|].
  intros r Hr. simpl. by rewrite length_fmap.
Qed.

Lemma pixel_fmap {A B} (f : A → B) (a : list (list A)) (i j : nat) :
  pixel (fmap (M:=list) (fmap (M:=list) f) a) i j = f <$> pixel a i j.
Proof.
  unfold pixel. rewrite list_lookup_fmap.
  destruct (a !! i) as [r|]; simpl; [|done]. by rewrite list_lookup_fmap.
Qed.

Lemma binary_fmap {A} (f : A → Z) (a : list (list A)) :
  (∀ v, f v = 0 ∨ f v = 1) →
  binary (fmap (M:=list) (fmap (M:=list) f) a).
Proof.
  intros Hf. unfold binary. apply Forall_fmap, Forall_true. intros r.
  simpl. apply Forall_fmap, Forall_true. intros v. apply Hf.
Qed.

Lemma binarize_Z_binary (a : list (list Z)) : binary (binarize_Z a).
Proof. apply binary_fmap. intros v. destruct (0 <? v); auto. Qed.

Lemma binarize_half_binary (a : list (list Q)) : binary (binarize_half a).
Proof. apply binary_fmap. intros v. destruct (Qle_bool v (1 # 2)); auto. Qed.

Lemma window_binary (a : list (list Z)) (sh sw : nat) :
  binary a → binary (window a sh sw).
Proof.
  intros H. unfold binary, window.
  apply Forall_fmap, Forall_take, Forall_drop.
  eapply Forall_impl; [exact H|]. intros r Hr. simpl.
  by apply Forall_take, Forall_drop.
Qed.

Lemma read_mask_Ok (imread : string → result image) path mask :
  _read_mask imread path = Ok mask →
  ∃ img, imread path = Ok img ∧
    mask = binarize_Z
             match img with
             | Gray px => px
             | Channels px =>
                 fmap (M:=list) (fmap (M:=list) (fun ch => hd 0 ch)) px
             end.
Proof.
  unfold _read_mask. destruct (imread path) as [img|e].
  - rewrite bind_Ok. intros [= <-]. by exists img.
  - rewrite bind_Raise. intros H. discriminate H.
Qed.

Lemma read_mask_binary_out (imread : string → result image) path mask :
  _read_mask imread path = Ok mask → binary mask.
Proof. intros (img & _ & ->)%read_mask_Ok. apply binarize_Z_binary. Qed.

Lemma elem_of_fg_binary (a : list (list Z)) (i j : nat) :
  binary a → (i, j) ∈ fg a ↔ pixel a i j = Some 1.
Proof.
  intros Hb. unfold fg. rewrite elem_of_pixels. split.
  - intros (v & Hv & Hnz). rewrite Hv. f_equal.
    unfold pixel in Hv. destruct (a !! i) as [r|] eqn:Hr; simpl in Hv; [|done].
    unfold binary in Hb. rewrite Forall_forall in Hb.
    pose proof (Hb r (list_elem_of_lookup_2 _ _ _ Hr)) as Hrow.
    rewrite Forall_forall in Hrow.
    destruct (Hrow v (list_elem_of_lookup_2 _ _ _ Hv)) as [-> | ->]; done.
  - intros H. by exists 1.
Qed.

End MaskMore.

(** X7. [_read_mask] gives a binary mask of the shape of the image (of its
    first channel, when the image has channels): a pixel is 1 when its
    sample is positive and 0 otherwise. An error of the decoder is passed
    on. *)
Theorem read_mask_binary (imread : string → result Masks.image) (path : string) :
  match imread path with
  | Ok img =>
      ∃ mask,
        Masks._read_mask imread path = Ok mask ∧ Numpy.binary mask ∧
        match img with
        | Masks.Gray px =>
            Masks.shape mask = Masks.shape px ∧
            ∀ i j, Masks.pixel mask i j
                   = (fun v => if 0 <? v then 1 else 0) <$> Masks.pixel px i j
        | Masks.Channels px =>
            Masks.shape mask = Masks.shape px ∧
            ∀ i j, Masks.pixel mask i j
                   = (fun ch => if 0 <? hd 0 ch then 1 else 0)
                       <$> Masks.pixel px i j
        end
  | Raise e => Masks._read_mask imread path = Raise e
  end.
Proof.
  unfold Masks._read_mask. destruct (imread path) as [img|e]; [|done].
  rewrite bind_Ok. eexists. split; [reflexivity|].
  split; [apply MaskMore.binarize_Z_binary|].
  unfold Masks.binarize_Z. destruct img as [px|px].
  - split; [apply MaskMore.shape_fmap|]. intros i j. apply MaskMore.pixel_fmap.
  - rewrite !MaskMore.shape_fmap. split; [done|]. intros i j.
    rewrite !MaskMore.pixel_fmap. by destruct (Masks.pixel px i j).
Qed.

(** X8. For a binary mask the pixels that the track lookup treats as
    foreground ([mask == 1], as (x, y) pairs) are the foreground pixels that
    the metrics count (non-zero elements, as (row, column) pairs). *)
Theorem coords_match_foreground (mask : list (list Z)) :
  Numpy.binary mask →
  ∀ x y : Z,
    (x, y) ∈ Evaluation.coords mask
    ↔ 0 ≤ x ∧ 0 ≤ y ∧ (Z.to_nat y, Z.to_nat x) ∈ Pixels.fg mask.
Proof.
  intros Hb x y. rewrite EvaluationFacts.elem_of_coords.
  unfold Evaluation.foreground. by rewrite MaskMore.elem_of_fg_binary.
Qed.

Lemma coords_match_foreground_witness :
  (1, 0) ∈ Evaluation.coords mask_top
  ↔ 0 ≤ 1 ∧ 0 ≤ 0 ∧ (Z.to_nat 0, Z.to_nat 1) ∈ Pixels.fg mask_top.
Proof.
  apply (coords_match_foreground mask_top). apply mask_top_wf.
Defined.

(** X9. Whenever the resampling routine returns an array of the shape it
    is asked for, the ground-truth mask that [_read_gt] returns is a binary
    428 x 428 mask, whatever the size of the image. *)
Theorem read_gt_canonical
    (imread : string → result Masks.image)
    (resize : list (list Z) → nat * nat → Masks.resize_args → list (list Q))
    (path : string) (mask : list (list Z)) :
  (∀ m args, Masks.shape (resize m (428%nat, 428%nat) args) = (428%nat, 428%nat) ∧
             Masks.rectangular (resize m (428%nat, 428%nat) args)) →
  Masks._read_mask imread path = Ok mask →
  Masks.rectangular mask →
  ∃ gt, Masks._read_gt imread resize path = Ok gt ∧
    Masks.shape gt = (428%nat, 428%nat) ∧ Masks.rectangular gt ∧
    Numpy.binary gt.
Proof.
  intros Hresize Hread Hrect.
  pose proof (MaskMore.read_mask_binary_out _ _ _ Hread) as Hbin.
  unfold Masks._read_gt. rewrite Hread, bind_Ok.
  case_decide as Hcanon.
  { exists mask. by repeat split. }
  destruct (Masks.shape mask) as [h w] eqn:Hshape.
  destruct ((Masks.canonical <=? h)%nat && (Masks.canonical <=? w)%nat) eqn:Hb.
  - apply andb_prop in Hb as [Hh Hw]. apply Nat.leb_le in Hh, Hw.
    unfold Masks.canonical in Hh, Hw.
    assert (Hoff : ∀ d, (428 ≤ d → (d - 428) / 2 + 428 ≤ d)%nat).
    { intros d Hd.
      pose proof (Nat.Div0.div_le_upper_bound (d - 428) 2 (d - 428)). lia. }
    destruct (MasksFacts.shape_window mask ((h - Masks.canonical) / 2)
                ((w - Masks.canonical) / 2) Hrect) as [Hs Hr].
    + rewrite Hshape. simpl. by apply Hoff.
    + rewrite Hshape. simpl. by apply Hoff.
    + eexists. split; [reflexivity|]. repeat split; try done.
      by apply MaskMore.window_binary.
  - destruct (Hresize mask {| Masks.order := 0; Masks.preserve_range := true;
                              Masks.anti_aliasing := false |}) as [Hs Hr].
    eexists. split; [reflexivity|]. unfold Masks.binarize_half.
    rewrite MaskMore.shape_fmap. repeat split; try done.
    + by apply MaskMore.rectangular_fmap.
    + apply MaskMore.binarize_half_binary.
Qed.

Lemma read_gt_canonical_witness :
  ∃ gt,
    Masks._read_gt (fun _ => Ok (Masks.Gray [[255]]))
      (fun _ _ _ => replicate 428 (replicate 428 1%Q)) "gt_5.tif" = Ok gt ∧
    Masks.shape gt = (428%nat, 428%nat) ∧ Masks.rectangular gt ∧
    Numpy.binary gt.
Proof.
  apply (read_gt_canonical (fun _ => Ok (Masks.Gray [[255]]))
           (fun _ _ _ => replicate 428 (replicate 428 1%Q)) "gt_5.tif" [[1]]).
  - intros m args. split; [by vm_compute|].
    unfold Masks.rectangular. apply Forall_replicate. by vm_compute.
  - reflexivity.
  - by apply (bool_decide_unpack _).
Defined.

(** ** Symmetry and extreme values of the metrics *)

Module MetricsMore.

Import Masks Numpy Pixels PixelsFacts Metrics MetricsFacts.

Lemma broadcast_dim_comm (m n : nat) : broadcast_dim m n = broadcast_dim n m.
Proof.
  unfold broadcast_dim. repeat case_decide; subst; try done; congruence.
Qed.

Lemma broadcast_shapes_comm (s t : nat * nat) :
  broadcast_shapes s t = broadcast_shapes t s.
Proof.
  unfold broadcast_shapes.
  by rewrite (broadcast_dim_comm s.1), (broadcast_dim_comm s.2).
Qed.

Lemma zip_with_comm {A C} (f : A → A → C) (l k : list A) :
  (∀ x y, f x y = f y x) → zip_with f l k = zip_with f k l.
Proof.
  intros Hf. revert k. induction l as [|x l IH]; intros [|y k]; simpl; try done.
  by rewrite Hf, IH.
Qed.

Lemma ufunc2_comm {C} (f : Z → Z → C) (a b : list (list Z)) :
  (∀ x y, f x y = f y x) → ufunc2 f a b = ufunc2 f b a.
Proof.
  intros Hf. unfold ufunc2. rewrite (broadcast_shapes_comm (shape a)).
  destruct (broadcast_shapes (shape b) (shape a)) as [s|]; [|done].
  f_equal. apply zip_with_comm. intros r1 r2. by apply zip_with_comm.
Qed.

Lemma size_eq_inter_union (A B : gset (nat * nat)) :
  size (A ∩ B) = size (A ∪ B) ↔ A = B.
Proof.
  split.
  - intros H. assert (A ∩ B = A ∪ B) as Heq.
    { apply set_subseteq_size_eq; [set_solver | lia]. }
    apply set_eq. intros x. split; intros Hx.
    + assert (x ∈ A ∩ B) by (rewrite Heq; set_solver). set_solver.
    + assert (x ∈ A ∩ B) by (rewrite Heq; set_solver). set_solver.
  - intros ->. f_equal. set_solver.
Qed.

Lemma ratio_eq_one (i u : Z) :
  0 < u → (inject_Z i / inject_Z u == 1)%Q ↔ i = u.
Proof.
  intros Hu. rewrite (Ratio.div_pos i u Hu). unfold Qeq. simpl.
  rewrite Z2Pos.id by done. lia.
Qed.

Lemma ratio_eq_zero (i u : Z) :
  0 < u → (inject_Z i / inject_Z u == 0)%Q ↔ i = 0.
Proof.
  intros Hu. rewrite (Ratio.div_pos i u Hu). unfold Qeq. simpl. lia.
Qed.

End MetricsMore.

(** X10. Both metrics are symmetric in the two masks, for arrays of any
    shapes: exchanging the masks gives the same value, or the same error
    when the shapes cannot be broadcast. *)
Theorem metrics_symmetric (a b : list (list Z)) :
  Metrics.jaccard_index a b = Metrics.jaccard_index b a ∧
  Metrics.dice_coefficient a b = Metrics.dice_coefficient b a.
Proof.
  unfold Metrics.jaccard_index, Metrics.dice_coefficient,
    Numpy.logical_and, Numpy.logical_or.
  rewrite (MetricsMore.ufunc2_comm
             (fun x y => Numpy.nonzero x && Numpy.nonzero y) a b)
    by (intros; apply andb_comm).
  rewrite (MetricsMore.ufunc2_comm
             (fun x y => Numpy.nonzero x || Numpy.nonzero y) a b)
    by (intros; apply orb_comm).
  by rewrite (Z.add_comm (Numpy.sum a)).
Qed.

(** X11. For two binary masks of the same shape, each metric is 1 exactly
    when the two masks have the same foreground, and 0 exactly when the
    masks are disjoint and not both empty. *)
Theorem metrics_extremes (a b : list (list Z)) :
  Masks.rectangular a → Masks.rectangular b →
  Masks.shape a = Masks.shape b →
  Numpy.binary a → Numpy.binary b →
  ∃ j d,
    Metrics.jaccard_index a b = Ok j ∧
    Metrics.dice_coefficient a b = Ok d ∧
    ((j == 1)%Q ↔ Pixels.fg a = Pixels.fg b) ∧
    ((d == 1)%Q ↔ Pixels.fg a = Pixels.fg b) ∧
    ((j == 0)%Q ↔ Pixels.fg a ∩ Pixels.fg b = ∅ ∧
                   Pixels.fg a ∪ Pixels.fg b ≠ ∅) ∧
    ((d == 0)%Q ↔ Pixels.fg a ∩ Pixels.fg b = ∅ ∧
                   Pixels.fg a ∪ Pixels.fg b ≠ ∅).
Proof.
  intros Hra Hrb Hs Hba Hbb.
  rewrite (MetricsFacts.jaccard_index_sets a b Hra Hrb Hs).
  rewrite (MetricsFacts.dice_coefficient_sets a b Hra Hrb Hs Hba Hbb).
  set (A := Pixels.fg a). set (B := Pixels.fg b).
  pose proof (MetricsFacts.size_union_inter A B) as Hsum.
  pose proof (MetricsFacts.size_inter_le_union A B) as Hle.
  pose proof (MetricsMore.size_eq_inter_union A B) as Hsame.
  pose proof (Ratio.size_zero_iff (A ∩ B)) as Hi0.
  pose proof (Ratio.size_zero_iff (A ∪ B)) as Hu0.
  eexists _, _. split; [reflexivity|]. split; [reflexivity|].
  destruct (Z.eqb_spec (Z.of_nat (size (A ∪ B))) 0) as [Hu | Hu].
  - assert (Hd : (Z.of_nat (size A) + Z.of_nat (size B) =? 0) = true)
      by (apply Z.eqb_eq; lia).
    rewrite Hd. apply Hu0 in Hu as Hempty.
    assert (HA : A = ∅) by set_solver. assert (HB : B = ∅) by set_solver.
    repeat split; try done; try (by rewrite HA, HB).
    all: intros H; try (by destruct H as [_ H]); by apply Q_apart_0_1 in H.
  - assert (Hd : (Z.of_nat (size A) + Z.of_nat (size B) =? 0) = false)
      by (apply Z.eqb_neq; lia).
    rewrite Hd.
    rewrite MetricsMore.ratio_eq_one, MetricsMore.ratio_eq_zero by lia.
    rewrite MetricsMore.ratio_eq_one, MetricsMore.ratio_eq_zero by lia.
    rewrite <- Hsame, <- Hi0, <- Hu0. repeat split; try lia.
Qed.

Lemma metrics_extremes_witness :
  ∃ j d,
    Metrics.jaccard_index mask_diag mask_top = Ok j ∧
    Metrics.dice_coefficient mask_diag mask_top = Ok d ∧
    ((j == 1)%Q ↔ Pixels.fg mask_diag = Pixels.fg mask_top) ∧
    ((d == 1)%Q ↔ Pixels.fg mask_diag = Pixels.fg mask_top) ∧
    ((j == 0)%Q ↔ Pixels.fg mask_diag ∩ Pixels.fg mask_top = ∅ ∧
                   Pixels.fg mask_diag ∪ Pixels.fg mask_top ≠ ∅) ∧
    ((d == 0)%Q ↔ Pixels.fg mask_diag ∩ Pixels.fg mask_top = ∅ ∧
                   Pixels.fg mask_diag ∪ Pixels.fg mask_top ≠ ∅).
Proof.
  apply (metrics_extremes mask_diag mask_top).
  - apply mask_diag_wf.
  - apply mask_top_wf.
  - reflexivity.
  - apply mask_diag_wf.
  - apply mask_top_wf.
Defined.

(** ** Masks of different shapes *)

Module ShapeMore.

Import Masks Numpy Metrics Evaluation.

Local Abbreviation broadcast_error :=
  (ValueError "operands could not be broadcast together").

Lemma broadcast_dim_None (m n : nat) :
  m ≠ n → m ≠ 1%nat → n ≠ 1%nat → broadcast_dim m n = None.
Proof. intros. unfold broadcast_dim. by rewrite !decide_False. Qed.

Lemma broadcast_shapes_None (s t : nat * nat) :
  (s.1 ≠ t.1 ∧ s.1 ≠ 1%nat ∧ t.1 ≠ 1%nat) ∨
  (s.2 ≠ t.2 ∧ s.2 ≠ 1%nat ∧ t.2 ≠ 1%nat) →
  broadcast_shapes s t = None.
Proof.
  unfold broadcast_shapes. intros [(H1 & H2 & H3) | (H1 & H2 & H3)].
  - rewrite (broadcast_dim_None s.1 t.1) by done. reflexivity.
  - rewrite (broadcast_dim_None s.2 t.2) by done.
    by destruct (broadcast_dim s.1 t.1).
Qed.

Lemma ufunc2_None {C} (f : Z → Z → C) (a b : list (list Z)) :
  broadcast_shapes (shape a) (shape b) = None →
  ufunc2 f a b = Raise broadcast_error.
Proof. intros H. unfold ufunc2. by rewrite H. Qed.

Lemma ufunc2_Raise {C} (f : Z → Z → C) (a b : list (list Z)) e :
  ufunc2 f a b = Raise e → e = broadcast_error.
Proof.
  unfold ufunc2. destruct (broadcast_shapes _ _); [done|]. by intros [= <-].
Qed.

Lemma mask_metrics_row_Raise nep50 (e : entry) err :
  mask_metrics_row nep50 e = Raise err → err = broadcast_error.
Proof.
  unfold mask_metrics_row, jaccard_index, dice_coefficient,
    logical_and, logical_or.
  destruct (ufunc2 (fun x y => nonzero x && nonzero y) _ _) as [both|e1] eqn:H1.
  2:{ rewrite !bind_Raise. intros [= <-]. by eapply ufunc2_Raise. }
  rewrite !bind_Ok.
  destruct (ufunc2 (fun x y => nonzero x || nonzero y) _ _) as [any|e2] eqn:H2.
  2:{ rewrite !bind_Raise. intros [= <-]. by eapply ufunc2_Raise. }
  rewrite !bind_Ok. intros H. discriminate H.
Qed.

Lemma mapM_Raise_elem {A B} (f : A → result B) (l : list A) (x : A) (e : exn) :
  (∀ y e', f y = Raise e' → e' = e) →
  x ∈ l → f x = Raise e → mapM f l = Raise e.
Proof.
  intros Hall. induction l as [|y l IH]; intros Hin Hx.
  - by apply elem_of_nil in Hin.
  - simpl. destruct (f y) as [z|e'] eqn:Hy.
    + rewrite bind_Ok. apply elem_of_cons in Hin as [-> | Hin];
        [by rewrite Hy in Hx|].
      by rewrite IH.
    + rewrite bind_Raise. f_equal. by eapply Hall.
Qed.

End ShapeMore.

(** X13. When the predicted mask of some aligned set cannot be broadcast to
    its ground-truth mask (on one axis the lengths differ and neither is
    1), both metrics raise on that set and [evaluate_mask_metrics] raises
    for the whole list: no table of the other sets is returned. *)
Theorem mask_metrics_shape_mismatch (nep50 : bool)
    (data : list Evaluation.entry) (e : Evaluation.entry) :
  e ∈ data →
  let s := Masks.shape (Evaluation.roi_mask e) in
  let t := Masks.shape (Evaluation.gt_mask e) in
  (s.1 ≠ t.1 ∧ s.1 ≠ 1%nat ∧ t.1 ≠ 1%nat) ∨
  (s.2 ≠ t.2 ∧ s.2 ≠ 1%nat ∧ t.2 ≠ 1%nat) →
  Metrics.jaccard_index (Evaluation.roi_mask e) (Evaluation.gt_mask e)
  = Raise (ValueError "operands could not be broadcast together") ∧
  Metrics.dice_coefficient (Evaluation.roi_mask e) (Evaluation.gt_mask e)
  = Raise (ValueError "operands could not be broadcast together") ∧
  Evaluation.evaluate_mask_metrics nep50 data
  = Raise (ValueError "operands could not be broadcast together").
Proof.
  intros Hin s t Hst. apply ShapeMore.broadcast_shapes_None in Hst.
  assert (HJ : Metrics.jaccard_index (Evaluation.roi_mask e)
                 (Evaluation.gt_mask e) = Raise (ValueError "operands could not be broadcast together")).
  { unfold Metrics.jaccard_index, Numpy.logical_and.
    by rewrite ShapeMore.ufunc2_None. }
  split; [exact HJ|]. split.
  - unfold Metrics.dice_coefficient, Numpy.logical_and.
    by rewrite ShapeMore.ufunc2_None.
  - unfold Evaluation.evaluate_mask_metrics.
    apply (ShapeMore.mapM_Raise_elem _ _ e); [|done|].
    + intros y e'. apply ShapeMore.mask_metrics_row_Raise.
    + unfold Evaluation.mask_metrics_row. by rewrite HJ.
Qed.

Lemma mask_metrics_shape_mismatch_witness :
  Evaluation.evaluate_mask_metrics false [entry_2x2; entry_mismatch]
  = Raise (ValueError "operands could not be broadcast together").
Proof.
  refine (proj2 (proj2 (mask_metrics_shape_mismatch false
            [entry_2x2; entry_mismatch] entry_mismatch _ _))).
  - apply list_elem_of_further, list_elem_of_here.
  - left. by vm_compute.
Defined.

(** ** A zero scale *)

Module TrackMore.

Import Tracks TracksFacts.

(** No float64 divided by zero is finite. *)
Lemma div_zero_not_finite (v : float) : is_finite (PrimFloat.div v 0) = false.
Proof.
  destruct (is_finite (PrimFloat.div v 0)) eqn:Hf; [|done].
  apply Float64Facts.value_is_finite in Hf as [q Hq].
  unfold Float64.value in Hq. rewrite FloatAxioms.div_spec in Hq.
  change (Prim2SF 0) with (S754_zero false) in Hq.
  by destruct (Prim2SF v) as [s|s| |s m e].
Qed.

End TrackMore.

(** X14. With the scale 0 no track is loaded: a track file with at least
    one row raises the error of the integer conversion, whatever its
    coordinates are (every quotient by zero is infinite or NaN), and only
    a file without rows loads, as an empty table. *)
Theorem load_tracks_zero_scale
    (read_csv : string → result (list Tracks.csv_row))
    (path : string) (rows : list Tracks.csv_row) :
  read_csv path = Ok rows →
  (rows ≠ [] →
   Tracks._load_tracks read_csv 0 path
   = Raise (ValueError
              "Cannot convert non-finite values (NA or inf) to integer")) ∧
  (rows = [] → Tracks._load_tracks read_csv 0 path = Ok []).
Proof.
  intros Hread. unfold Tracks._load_tracks. rewrite Hread, bind_Ok. split.
  - destruct rows as [|r rows]; [done|]. intros _. simpl.
    by rewrite (TracksFacts.to_px_Raise 0 (Tracks.csv_X_nm r)
                  (TrackMore.div_zero_not_finite _)).
  - by intros ->.
Qed.

Lemma load_tracks_zero_scale_witness :
  Tracks._load_tracks (fun _ => Ok one_track_csv) 0 "tracks_5.csv"
  = Raise (ValueError
             "Cannot convert non-finite values (NA or inf) to integer").
Proof.
  by apply (load_tracks_zero_scale (fun _ => Ok one_track_csv)
              "tracks_5.csv" one_track_csv eq_refl).
Defined.

(** ** Tracks found on a mask *)

Module LookupMore.

Import Masks Tracks Evaluation EvaluationFacts MetricsFacts.




End LookupMore.




(** ** The summary row, once more *)

Module FrameMore.

Import Frames FrameFacts.

Lemma find_column_Some (cs : list Series) (n : string) (c : Series) :
  find_column cs n = Some c → name c = n ∧ c ∈ cs.
Proof.
  induction cs as [|d cs IH]; simpl; [done|]. case_decide.
  - intros [= ->]. split; [done | apply list_elem_of_here].
  - intros H'. destruct (IH H') as [? ?]. split; [done|].
    by apply list_elem_of_further.
Qed.

Lemma dt_frame_of_dict (d : list (string * cell)) (n : string) :
  dt_or_number (frame_of_dict d) n
  = match dict_get d n with Some (Str _) => object | _ => number end.
Proof.
  unfold dt_or_number, column. simpl.
  induction d as [|[k v] d IH]; simpl; [done|].
  destruct (decide (k = n)); [by destruct v | exact IH].
Qed.

Lemma NoDup_with_label (L : list string) (n : string) :
  NoDup L → NoDup (L ++ if decide (n ∈ L) then [] else [n]).
Proof.
  intros Hnd. case_decide as Hn.
  - by rewrite app_nil_r.
  - apply NoDup_app. split; [done|]. split; [|apply NoDup_singleton].
    intros x Hx Hx'%list_elem_of_singleton. by subst x.
Qed.

Lemma mean_not_Str fsum (vs : list cell) : is_numeric (mean fsum vs).
Proof. unfold mean. by destruct (numbers vs). Qed.

(** The value that the summary row holds in the column [c]. *)
Local Abbreviation last_cell fsum label c :=
  (if decide ("File Number" = name c) then Str label
   else if decide (dt c = number) then mean fsum (values c) else NaN).

Section Summary.
Variable fsum : list float → float.
Variable df : DataFrame.
Variable label : string.
Hypothesis Hwf : wf df.

Local Abbreviation out := (concat df (frame_of_dict (summary_dict fsum df label))).

Lemma summarize_column (c : Series) :
  c ∈ columns df →
  column out (name c)
  = Some {| name := name c;
            dt := if decide ("File Number" = name c) then object else dt c;
            values := values c ++ [last_cell fsum label c] |}.
Proof.
  intros Hc. destruct Hwf as [_ Hnd].
  pose proof (find_column_elem _ _ Hnd Hc) as Hfind.
  unfold column, concat. cbn [columns].
  rewrite summary_new_names, find_column_names by done.
  rewrite decide_True
    by (apply elem_of_app; left; by apply list_elem_of_fmap_2).
  f_equal. rewrite values_frame_of_dict, dt_frame_of_dict.
  rewrite (summary_get fsum df label Hwf).
  unfold values_or_nan, dt_or_number, column. rewrite Hfind.
  destruct (decide ("File Number" = name c)) as [Hfn | Hfn]; simpl.
  - f_equal. apply decide_False. by intros [_ ?].
  - destruct (decide (dt c = number)) as [Hnum | Hobj]; simpl.
    + f_equal. rewrite Hnum. apply decide_True. split; [done|].
      pose proof (mean_not_Str fsum (values c)).
      by destruct (mean fsum (values c)).
    + f_equal. destruct (dt c); [done|]. apply decide_False. by intros [? _].
Qed.

Lemma summarize_label_column :
  "File Number" ∉ name <$> columns df →
  column out "File Number"
  = Some {| name := "File Number"; dt := object;
            values := replicate (nrows df) NaN ++ [Str label] |}.
Proof.
  intros Hfn. unfold column, concat. cbn [columns].
  rewrite summary_new_names, find_column_names by done.
  destruct (decide ("File Number" ∈ name <$> columns df)) as [|_]; [done|].
  rewrite decide_True by (apply elem_of_app; right; apply list_elem_of_here).
  f_equal. rewrite values_frame_of_dict, dt_frame_of_dict.
  rewrite (summary_get fsum df label Hwf).
  destruct (decide ("File Number" = "File Number")) as [_|]; [|done]. simpl.
  unfold values_or_nan, dt_or_number, column.
  by rewrite (find_column_None _ _ Hfn).
Qed.

Lemma summarize_columns_elem (c' : Series) :
  c' ∈ columns out →
  (∃ c, c ∈ columns df ∧ column out (name c) = Some c' ∧ name c' = name c) ∨
  (("File Number" ∉ name <$> columns df) ∧ column out "File Number" = Some c').
Proof.
  intros Hin. pose proof (summarize_names fsum df label) as Hnames.
  assert (Hnd : NoDup (name <$> columns out)).
  { rewrite Hnames. destruct Hwf as [_ Hnd]. by apply NoDup_with_label. }
  pose proof (find_column_elem _ _ Hnd Hin) as Hfind.
  assert (Hn : name c' ∈ name <$> columns out) by by apply list_elem_of_fmap_2.
  rewrite Hnames in Hn. apply elem_of_app in Hn as [Hn | Hn].
  - left. apply list_elem_of_fmap in Hn as (c & Hname & Hc).
    exists c. rewrite <- Hname. done.
  - right. case_decide as Hfn; [by apply elem_of_nil in Hn|].
    apply list_elem_of_singleton in Hn. rewrite Hn in Hfind. by split.
Qed.

Lemma summarize_wf : wf out.
Proof.
  pose proof Hwf as [Hcols Hnd]. rewrite Forall_forall in Hcols. split.
  - apply Forall_forall. intros c' Hc'.
    destruct (summarize_columns_elem c' Hc')
      as [(c & Hc & Hcol & _) | [Hfn Hcol]].
    + rewrite (summarize_column c Hc) in Hcol. injection Hcol as <-.
      destruct (Hcols c Hc) as [Hlen Hnum]. cbn [values dt nrows concat]. split.
      * rewrite length_app, Hlen. simpl. done.
      * intros Hdt. apply Forall_app.
        destruct (decide ("File Number" = name c)); [done|].
        split; [by apply Hnum|]. constructor; [|done].
        rewrite decide_True by done. apply mean_not_Str.
    + rewrite (summarize_label_column Hfn) in Hcol. injection Hcol as <-.
      cbn [values dt nrows concat]. split; [|done].
      rewrite length_app, length_replicate. simpl. done.
  - rewrite (summarize_names fsum df label). by apply NoDup_with_label.
Qed.

End Summary.

End FrameMore.

(** X17. Summarising keeps a table well formed (every column has one cell
    for each row, numeric columns hold no string, names are distinct). The
    label column becomes a column of objects and every other column keeps
    its type; in the summary row a column that is not numeric holds a
    missing value. *)
Theorem summarize_keeps_table (fsum : list float → float)
    (df : Frames.DataFrame) (label : option string) :
  Frames.wf df →
  let out := Frames.summarize_results fsum df label in
  Frames.wf out ∧
  (∀ c, c ∈ Frames.columns df →
     ∃ c', Frames.column out (Frames.name c) = Some c' ∧
       Frames.dt c' = (if decide ("File Number" = Frames.name c)
                       then Frames.object else Frames.dt c)) ∧
  (∀ c, c ∈ Frames.columns df → Frames.dt c = Frames.object →
     Frames.name c ≠ "File Number" →
     Frames.at_ out (Frames.nrows df) (Frames.name c) = Some Frames.NaN).
Proof.
  intros Hwf out. subst out. unfold Frames.summarize_results.
  set (l := default Frames.default_label label).
  split; [by apply FrameMore.summarize_wf|]. split.
  - intros c Hc. eexists. split; [by apply FrameMore.summarize_column|]. done.
  - intros c Hc Hobj Hname. unfold Frames.at_.
    rewrite (FrameMore.summarize_column fsum df l Hwf c Hc). simpl.
    destruct Hwf as [Hcols _]. rewrite Forall_forall in Hcols.
    destruct (Hcols c Hc) as [Hlen _].
    rewrite lookup_app_r by lia. rewrite Hlen, Nat.sub_diag. simpl.
    rewrite decide_False by done. rewrite decide_False; [done|].
    by rewrite Hobj.
Qed.

Lemma summarize_keeps_table_witness :
  Frames.wf (Frames.summarize_results Frames.sum_ltr
               (Report.metrics_frame two_rows) None) ∧
  Frames.at_ (Frames.summarize_results Frames.sum_ltr
                (Report.metrics_frame two_rows) None)
    2 "ROI File" = Some Frames.NaN.
Proof.
  destruct (summarize_keeps_table Frames.sum_ltr
              (Report.metrics_frame two_rows) None)
    as (Hwf & _ & Hnan).
  - by apply (bool_decide_unpack _).
  - split; [exact Hwf|].
    refine (Hnan {| Frames.name := "ROI File"; Frames.dt := Frames.object;
                    Frames.values := _ |} _ eq_refl _).
    + simpl. apply list_elem_of_further, list_elem_of_here.
    + done.
Defined.

(** ** The workbook *)

Module ReportMore.

Import Evaluation Frames FrameFacts Report.

Ltac column_wf :=
  cbn [values dt]; split;
  [ by rewrite length_fmap
  | first [ by intros [=]
          | intros _; apply Forall_fmap, Forall_true; by intros ? ] ].

Lemma metrics_frame_wf (rows : list metrics_row) : wf (metrics_frame rows).
Proof.
  destruct rows as [|r rows]; [by apply (bool_decide_unpack _)|].
  unfold metrics_frame. set (l := r :: rows). split.
  - cbn [columns nrows]. repeat (constructor; [column_wf|]). constructor.
  - by apply (bool_decide_unpack _).
Qed.

Lemma comparison_frame_wf (rows : list comparison_row) :
  wf (comparison_frame rows).
Proof.
  destruct rows as [|r rows]; [by apply (bool_decide_unpack _)|].
  unfold comparison_frame. set (l := r :: rows). split.
  - cbn [columns nrows]. repeat (constructor; [column_wf|]). constructor.
  - by apply (bool_decide_unpack _).
Qed.

Lemma summarize_rows fsum (df : DataFrame) (label : option string) :
  nrows (summarize_results fsum df label) = (nrows df + 1)%nat.
Proof. reflexivity. Qed.

Lemma summarize_label_at fsum (df : DataFrame) (label : option string)
    (c : Series) :
  wf df → c ∈ columns df → name c = "File Number" →
  at_ (summarize_results fsum df label) (nrows df) "File Number"
  = Some (Str (default default_label label)).
Proof.
  intros Hwf Hc Hname. unfold summarize_results, at_.
  pose proof (FrameMore.summarize_column fsum df (default default_label label)
                Hwf c Hc) as Hcol.
  rewrite Hname in Hcol. rewrite Hcol. simpl.
  destruct Hwf as [Hcols _]. rewrite Forall_forall in Hcols.
  destruct (Hcols c Hc) as [Hlen _].
  rewrite lookup_app_r by lia. rewrite Hlen, Nat.sub_diag. simpl.
  by destruct (decide ("File Number" = "File Number")).
Qed.

End ReportMore.

(** X19. For aligned sets whose masks have one shape (at least one set),
    [save_results] writes the sheet "Mask Metrics" first and the sheet
    "Track Comparison" after it exactly when it is asked for, and prints
    the save notice. Every sheet is a well-formed table with one row for
    each aligned set and a last row labelled "Overall Average". *)
Theorem save_results_sheets (fsum : list float → float) (nep50 : bool)
    (data : list Evaluation.entry)
    (excel_filename : string) (track_comparison : bool) :
  Forall MaskRows.same_shape data → data ≠ [] →
  ∃ sheets,
    Report.save_results fsum nep50 data excel_filename track_comparison
    = (Ok sheets, [Saved excel_filename]) ∧
    sheets.*1 = (if track_comparison
                 then ["Mask Metrics"; "Track Comparison"]
                 else ["Mask Metrics"]) ∧
    ∀ sheet df, (sheet, df) ∈ sheets →
      Frames.wf df ∧
      Frames.nrows df = (length data + 1)%nat ∧
      Frames.at_ df (length data) "File Number"
      = Some (Frames.Str "Overall Average").
Proof.
  intros Hdata Hne. unfold Report.save_results.
  assert (Hrows : Evaluation.evaluate_mask_metrics nep50 data
                  = Ok (MaskRows.row_of_sets <$> data)).
  { unfold Evaluation.evaluate_mask_metrics. apply mapM_Ok_fmap.
    eapply Forall_impl; [exact Hdata|]. intros e He.
    by apply MaskRowsFacts.mask_metrics_row_sets. }
  rewrite Hrows. eexists. split; [reflexivity|]. split; [by destruct track_comparison|].
  assert (Hm : ∀ df,
    df = Frames.summarize_results fsum
           (Report.metrics_frame (MaskRows.row_of_sets <$> data)) None →
    Frames.wf df ∧ Frames.nrows df = (length data + 1)%nat ∧
    Frames.at_ df (length data) "File Number"
    = Some (Frames.Str "Overall Average")).
  { intros df ->.
    pose proof (ReportMore.metrics_frame_wf (MaskRows.row_of_sets <$> data)) as Hwf.
    destruct data as [|e data]; [done|].
    split; [by apply FrameMore.summarize_wf|]. split.
    - rewrite ReportMore.summarize_rows. simpl. by rewrite length_fmap.
    - change (Some (Frames.Str "Overall Average"))
        with (Some (Frames.Str (default Frames.default_label None))).
      erewrite <- (ReportMore.summarize_label_at fsum _ None); [|done| |].
      + f_equal. simpl. by rewrite length_fmap.
      + apply list_elem_of_here.
      + done. }
  assert (Ht : ∀ df,
    df = Frames.summarize_results fsum
           (Report.comparison_frame (Evaluation.evaluate_track_comparison data))
           None →
    Frames.wf df ∧ Frames.nrows df = (length data + 1)%nat ∧
    Frames.at_ df (length data) "File Number"
    = Some (Frames.Str "Overall Average")).
  { intros df ->.
    pose proof (ReportMore.comparison_frame_wf
                  (Evaluation.evaluate_track_comparison data)) as Hwf.
    destruct data as [|e data]; [done|].
    split; [by apply FrameMore.summarize_wf|]. split.
    - rewrite ReportMore.summarize_rows. simpl.
      unfold Evaluation.evaluate_track_comparison. by rewrite ?length_fmap.
    - change (Some (Frames.Str "Overall Average"))
        with (Some (Frames.Str (default Frames.default_label None))).
      erewrite <- (ReportMore.summarize_label_at fsum _ None); [|done| |].
      + f_equal. simpl.
        unfold Evaluation.evaluate_track_comparison. by rewrite ?length_fmap.
      + apply list_elem_of_here.
      + done. }
  intros sheet df Hin. apply elem_of_cons in Hin as [[= -> ->] | Hin].
  - by apply Hm.
  - destruct track_comparison; [|by apply elem_of_nil in Hin].
    apply list_elem_of_singleton in Hin. injection Hin as -> ->. by apply Ht.
Qed.

Lemma save_results_sheets_witness :
  ∃ sheets,
    Report.save_results Frames.sum_ltr false [entry_2x2]
      "evaluation_results.xlsx" true
    = (Ok sheets, [Saved "evaluation_results.xlsx"]) ∧
    sheets.*1 = ["Mask Metrics"; "Track Comparison"].
Proof.
  destruct (save_results_sheets Frames.sum_ltr false [entry_2x2]
              "evaluation_results.xlsx" true)
    as (sheets & Hsave & Hnames & _).
  - constructor; [by apply (bool_decide_unpack _) | constructor].
  - done.
  - by exists sheets.
Defined.

(** ** What the constructor loads *)

Module InitMore.

Import Masks Tracks Evaluation Listing Evaluator.

Lemma load_set_Ok (imread : string → result image)
    (resize : list (list Z) → nat * nat → resize_args → list (list Q))
    (read_csv : string → result (list csv_row))
    (roi_dir gt_dir track_dir : string) (scale : float)
    (t : Align.triplet) (e : entry) :
  load_set imread resize read_csv roi_dir gt_dir track_dir scale t = Ok e →
  t = (file_number e, roi_file e, gt_file e, track_file e) ∧
  _read_mask imread (path_join roi_dir (roi_file e)) = Ok (roi_mask e) ∧
  _read_gt imread resize (path_join gt_dir (gt_file e)) = Ok (gt_mask e) ∧
  _load_tracks read_csv scale (path_join track_dir (track_file e))
  = Ok (tracks e).
Proof.
  destruct t as [[[num roi_name] gt_name] track_name]. unfold load_set.
  destruct (_read_mask imread _) as [roi|err] eqn:Hroi;
    [|rewrite bind_Raise; intros H; discriminate H].
  rewrite bind_Ok.
  destruct (_read_gt imread resize _) as [gt|err] eqn:Hgt;
    [|rewrite bind_Raise; intros H; discriminate H].
  rewrite bind_Ok.
  destruct (_load_tracks read_csv scale _) as [df|err] eqn:Hdf;
    [|rewrite bind_Raise; intros H; discriminate H].
  rewrite bind_Ok. intros [= <-]. by simpl.
Qed.

End InitMore.

(** X20. An evaluator that the constructor returns holds, for each aligned
    triplet and in the same order, the set loaded from the three files of
    the triplet: the mask read from the ROI folder, the normalised mask
    read from the ground-truth folder and the tracks read from the track
    folder. The file numbers of the sets are strictly ascending, and the
    last line printed is the count of loaded sets. *)
Theorem init_loads_aligned_sets
    (listdir : string → result (list string))
    (imread : string → result Masks.image)
    (resize : list (list Z) → nat * nat → Masks.resize_args → list (list Q))
    (read_csv : string → result (list Tracks.csv_row))
    (roi_dir gt_dir track_dir : string) (nm_per_pixel : option float)
    (stdout : list notice) (ev : Evaluator.MaskTrackEvaluator) :
  Evaluator.__init__ listdir imread resize read_csv
    roi_dir gt_dir track_dir nm_per_pixel = (stdout, Ok ev) →
  Listing._list_images listdir roi_dir = Ok (Evaluator.roi_files ev) ∧
  Listing._list_images listdir gt_dir = Ok (Evaluator.gt_files ev) ∧
  Listing._list_tracks listdir track_dir = Ok (Evaluator.track_files ev) ∧
  Evaluator.file_triplets ev
  = (Align._align_files (Evaluator.roi_files ev) (Evaluator.gt_files ev)
       (Evaluator.track_files ev)).1 ∧
  Evaluator.nm_per_pixel ev = default 117%float nm_per_pixel ∧
  length (Evaluator.data ev) = length (Evaluator.file_triplets ev) ∧
  StronglySorted Z.lt (Evaluation.file_number <$> Evaluator.data ev) ∧
  (∀ k e, Evaluator.data ev !! k = Some e →
     Evaluator.file_triplets ev !! k
     = Some (Evaluation.file_number e, Evaluation.roi_file e,
             Evaluation.gt_file e, Evaluation.track_file e) ∧
     Masks._read_mask imread
       (Listing.path_join roi_dir (Evaluation.roi_file e))
     = Ok (Evaluation.roi_mask e) ∧
     Masks._read_gt imread resize
       (Listing.path_join gt_dir (Evaluation.gt_file e))
     = Ok (Evaluation.gt_mask e) ∧
     Tracks._load_tracks read_csv (Evaluator.nm_per_pixel ev)
       (Listing.path_join track_dir (Evaluation.track_file e))
     = Ok (Evaluation.tracks e)) ∧
  last stdout = Some (Loaded (length (Evaluator.data ev))).
Proof.
  unfold Evaluator.__init__.
  destruct (Listing._list_images listdir roi_dir) as [r|e1];
    [|intros H; discriminate H].
  destruct (Listing._list_images listdir gt_dir) as [g|e2];
    [|intros H; discriminate H].
  destruct (Listing._list_tracks listdir track_dir) as [t|e3];
    [|intros H; discriminate H].
  pose proof (AlignFacts.aligned_nums r g t) as Hnums.
  destruct (Align._align_files r g t) as [triplets out] eqn:Halign.
  simpl fst in Hnums.
  destruct triplets as [|t0 ts]; [intros H; discriminate H|].
  set (nm := default Tracks.default_nm_per_pixel nm_per_pixel).
  destruct (mapM _ (t0 :: ts)) as [data|e] eqn:Hload;
    [|intros H; discriminate H].
  intros [= <- <-]. cbn [Evaluator.roi_files Evaluator.gt_files
    Evaluator.track_files Evaluator.file_triplets Evaluator.data
    Evaluator.nm_per_pixel].
  pose proof (mapM_Ok_lookup _ _ _ Hload) as Hlookup.
  assert (Hentry : ∀ k e, data !! k = Some e →
    (t0 :: ts) !! k
    = Some (Evaluation.file_number e, Evaluation.roi_file e,
            Evaluation.gt_file e, Evaluation.track_file e) ∧
    Masks._read_mask imread
      (Listing.path_join roi_dir (Evaluation.roi_file e))
    = Ok (Evaluation.roi_mask e) ∧
    Masks._read_gt imread resize
      (Listing.path_join gt_dir (Evaluation.gt_file e))
    = Ok (Evaluation.gt_mask e) ∧
    Tracks._load_tracks read_csv nm
      (Listing.path_join track_dir (Evaluation.track_file e))
    = Ok (Evaluation.tracks e)).
  { intros k e Hk. destruct (Hlookup k e Hk) as (x & Hx & Hload_x).
    apply InitMore.load_set_Ok in Hload_x as (-> & H1 & H2 & H3).
    by split. }
  assert (Hlen : length data = length (t0 :: ts))
    by (by apply mapM_Ok_length in Hload).
  do 3 (split; [done|]). split; [by rewrite Halign|].
  do 2 (split; [done|]). split; [|split; [done|]].
  - assert (Hfn : Evaluation.file_number <$> data
                  = Align.triplet_num <$> (t0 :: ts)).
    { apply list_eq. intros k. rewrite !list_lookup_fmap.
      destruct (data !! k) as [e|] eqn:Hk.
      - destruct (Hentry k e Hk) as [Hx _]. unfold Align.triplet in *.
        by rewrite Hx.
      - apply lookup_ge_None in Hk. rewrite Hlen in Hk.
        apply lookup_ge_None in Hk. by rewrite Hk. }
    rewrite Hfn, Hnums. apply AlignFacts.sorted_ascending.
  - by rewrite last_snoc.
Qed.

Lemma init_loads_aligned_sets_witness :
  ∃ stdout ev,
    Evaluator.__init__ listdir_one (fun _ => Ok (Masks.Gray [[255]]))
      (fun _ _ _ => replicate 428 (replicate 428 1%Q))
      (fun _ => Ok one_track_csv) "roi" "gt" "tracks" None = (stdout, Ok ev) ∧
    StronglySorted Z.lt (Evaluation.file_number <$> Evaluator.data ev) ∧
    last stdout = Some (Loaded (length (Evaluator.data ev))).
Proof.
  destruct (Evaluator.__init__ listdir_one (fun _ => Ok (Masks.Gray [[255]]))
              (fun _ _ _ => replicate 428 (replicate 428 1%Q))
              (fun _ => Ok one_track_csv) "roi" "gt" "tracks" None)
    as [stdout [ev|e]] eqn:Hinit.
  - exists stdout, ev. split; [reflexivity|].
    destruct (init_loads_aligned_sets _ _ _ _ _ _ _ _ _ _ Hinit)
      as (_ & _ & _ & _ & _ & _ & Hsorted & _ & Hlast).
    by split.
  - vm_compute in Hinit. discriminate Hinit.
Defined.
